(** * The FOSSology scheduler core (src/scheduler/agent/scheduler.c)

    A shallow embedding of the scheduler's tick callback, process lock,
    privilege drop, signal handlers and start-up sequence, and the
    properties of the design specification checked against them.

    Conventions.  C [int] and [pid_t] values are [Z]; flags that the code
    only ever tests for zero are [bool].  Functions of the other
    translation units (agent.c, job.c, host.c, event.c) are reached
    through an interface record; every call that has an effect is also
    written to a call log, so that "what the function did" can be stated
    without looking inside the collaborator. *)

From Stdlib Require Import ZArith Lia Ascii.
From stdpp Require Import base option list strings relations.

Local Open Scope Z_scope.

(** ** Part I.  The scheduling policy: [update_scheduler] *)

Module Policy.

Section Interface.

Context {job host world : Type}.

(** The functions [update_scheduler] calls.  [world] is everything they
    own: the agent list, the job queue, the host list, the meta-agent
    registry and the event loop.  [backlog] is not a function of the
    program: it bounds how many more jobs [next_job] can hand out, which
    is what makes the [while] loop of the tick terminate. *)
Record collaborators : Type := Collaborators {
  num_agents : world -> Z;
  active_jobs : world -> Z;
  next_job : world -> option job * world;
  job_type : job -> string;
  is_exclusive : string -> world -> bool;
  get_host : Z -> world -> option host;
  agent_init : option host -> job -> Z -> world -> world;
  event_loop_terminate : world -> world;
  backlog : world -> nat;
  next_job_backlog : forall w jb w',
    next_job w = (Some jb, w') -> (backlog w' < backlog w)%nat;
  agent_init_backlog : forall h jb z w,
    (backlog (agent_init h jb z w) <= backlog w)%nat
}.

(** One entry of the call log. [Cnext_job r]: [next_job()] returned [r]
    ([None] is NULL).  [Cis_exclusive ty b]: [is_exclusive(ty)] returned
    [b].  [Cagent_init h jb z]: [agent_init(h, jb, z)] was called, [h]
    being what [get_host(1)] had just returned. *)
Inductive call : Type :=
  | Cnext_job (r : option job)
  | Cis_exclusive (ty : string) (b : bool)
  | Cagent_init (h : option host) (jb : job) (z : Z)
  | Cevent_loop_terminate.

(** The global flag [closing] and the two [static] locals of
    [update_scheduler]: [j], the job held back for an exclusive run
    ([None] is NULL), and [lockout]. *)
Record statics : Type := Statics {
  closing : bool;
  j : option job;
  lockout : bool
}.

Variable C : collaborators.

(** [n_agents == 0 && n_jobs == 0] on the counts of the world [w]: no
    agent is live and no job is active. *)
Definition drained (w : world) : bool :=
  (num_agents C w =? 0) && (active_jobs C w =? 0).

(** The loop [while((j = next_job()) != NULL) { ... }].  The result is
    the value [j] is left with, the world, and the calls made.  [fuel]
    bounds the number of iterations. *)
Fixpoint pull_jobs (fuel : nat) (w : world)
  : option (option job * world * list call) :=
  match fuel with
  | O => None
  | S fuel' =>
      let '(r, w1) := next_job C w in
      match r with
      | None => Some (None, w1, [Cnext_job None])
      | Some jb =>
          let ty := job_type C jb in
          if is_exclusive C ty w1
          then Some (Some jb, w1, [Cnext_job (Some jb); Cis_exclusive ty true])
          else
            let h := get_host C 1 w1 in
            match pull_jobs fuel' (agent_init C h jb 0 w1) with
            | None => None
            | Some (r', w', tr) =>
                Some (r', w',
                      Cnext_job (Some jb) :: Cis_exclusive ty false
                        :: Cagent_init h jb 0 :: tr)
            end
      end
  end.

(** [update_scheduler()], lines 166-206.  [n_agents] and [n_jobs] are
    read once, on entry, and tested three times. *)
Definition update_scheduler_fuel (fuel : nat) (s : statics) (w : world)
  : option (statics * world * list call) :=
  let n_agents := num_agents C w in
  let n_jobs := active_jobs C w in
  if closing s && (n_agents =? 0) && (n_jobs =? 0)
  then Some (s, event_loop_terminate C w, [Cevent_loop_terminate])
  else
    let lockout1 :=
      if lockout s && (n_agents =? 0) && (n_jobs =? 0) then false
      else lockout s in
    let pulled :=
      match j s with
      | None =>
          if negb lockout1 then pull_jobs fuel w else Some (None, w, [])
      | Some jb => Some (Some jb, w, [])
      end in
    match pulled with
    | None => None
    | Some (Some jb, w1, tr) =>
        if (n_agents =? 0) && (n_jobs =? 0)
        then
          let h := get_host C 1 w1 in
          Some (Statics (closing s) None true,
                agent_init C h jb 0 w1,
                tr ++ [Cagent_init h jb 0])
        else Some (Statics (closing s) (Some jb) lockout1, w1, tr)
    | Some (None, w1, tr) =>
        Some (Statics (closing s) None lockout1, w1, tr)
    end.

(** The tick with the fuel the backlog asks for. *)
Definition update_scheduler (s : statics) (w : world)
  : option (statics * world * list call) :=
  update_scheduler_fuel (S (backlog C w)) s w.

(** What is left of a log that pulled and launched [launches] in turn. *)
Definition launch_calls (launches : list (job * option host)) : list call :=
  concat (map (fun '(jb, h) =>
                 [Cnext_job (Some jb); Cis_exclusive (job_type C jb) false;
                  Cagent_init h jb 0]) launches).

Definition is_pull (c : call) : bool :=
  match c with Cnext_job _ => true | _ => false end.

Definition is_launch (c : call) : bool :=
  match c with Cagent_init _ _ _ => true | _ => false end.

End Interface.

Arguments collaborators : clear implicits.
Arguments call : clear implicits.
Arguments statics : clear implicits.

End Policy.

(** ** Part II.  The collaborators as the design specification describes them

    agent.c, job.c, host.c and event.c are translation units of their
    own.  This module gives [Policy.collaborators] one executable
    implementation, written from sections 3, 4.2, 4.3, 4.4 and 4.5 of the
    specification, on which ticks can be run. *)

Module Model.

Record job : Type := Job {
  job_id : Z;
  type_name : string;
  priority : Z
}.

Record host : Type := Host {
  host_name : string;
  address : string;
  agent_dir : string;
  max_agents : Z;
  running_agents : Z
}.

Record meta_agent : Type := Meta {
  meta_name : string;
  command : string;
  meta_max : Z;
  exclusive : bool
}.

(** A live agent: its process, the host it runs on, its meta-agent and
    the job it was launched for. *)
Record agent : Type := Agent {
  agent_pid : Z;
  agent_host : string;
  agent_meta : string;
  agent_job : job
}.

(** [pending]: PENDING jobs in enqueue order, oldest first.  [claimed]:
    jobs [next_job] has returned and that were neither launched nor
    released.  [agents]: the live agents, each running one RUNNING job.
    [resolved]: finished jobs with the exit status of their agent. *)
Record world : Type := World {
  hosts : list host;
  meta_agents : list meta_agent;
  pending : list job;
  claimed : list job;
  agents : list agent;
  resolved : list (job * Z);
  next_pid : Z;
  terminated : bool
}.

Definition find_meta (ty : string) (w : world) : option meta_agent :=
  List.find (fun m => String.eqb (meta_name m) ty) (meta_agents w).

Definition find_host (hn : string) (w : world) : option host :=
  List.find (fun h => String.eqb (host_name h) hn) (hosts w).

Definition live_of_type (ty : string) (w : world) : Z :=
  Z.of_nat (length (List.filter (fun a => String.eqb (agent_meta a) ty) (agents w))).

(** Modelled from the spec: [num_agents()], the count of live agents in
    the supervisor (section 3, invariant 2). *)
Definition num_agents (w : world) : Z := Z.of_nat (length (agents w)).

(** Modelled from the spec: [active_jobs()] is [active_count()] of section
    4.3, the number of jobs that are claimed or RUNNING. *)
Definition active_jobs (w : world) : Z :=
  Z.of_nat (length (claimed w)) + Z.of_nat (length (agents w)).

(** Modelled from the spec: a job's type has spare capacity while fewer
    agents of the type are live than its meta-agent's cap; a type with no
    meta-agent is not capped (launching it fails with NO_META_AGENT). *)
Definition has_capacity (w : world) (jb : job) : bool :=
  match find_meta (type_name jb) w with
  | Some m => live_of_type (type_name jb) w <? meta_max m
  | None => true
  end.

(** The eligible job of highest priority, the oldest among equals, and
    the queue without it. *)
Fixpoint select (elig : job -> bool) (l : list job) : option (job * list job) :=
  match l with
  | [] => None
  | x :: l' =>
      match select elig l' with
      | None => if elig x then Some (x, l') else None
      | Some (y, rest) =>
          if elig x && (priority y <=? priority x)
          then Some (x, l')
          else Some (y, x :: rest)
      end
  end.

(** Modelled from the spec: [next_job()] of section 4.3.  The job
    returned becomes claimed; a NULL return changes nothing. *)
Definition next_job (w : world) : option job * world :=
  match select (has_capacity w) (pending w) with
  | Some (jb, rest) =>
      (Some jb,
       World (hosts w) (meta_agents w) rest (claimed w ++ [jb]) (agents w)
             (resolved w) (next_pid w) (terminated w))
  | None => (None, w)
  end.

Definition job_type (jb : job) : string := type_name jb.

(** Modelled from the spec: [is_exclusive(type_name)] of section 4.5, the
    EXCLUSIVE flag of the type's meta-agent. *)
Definition is_exclusive (ty : string) (w : world) : bool :=
  match find_meta ty w with
  | Some m => exclusive m
  | None => false
  end.

(** Modelled from the spec: [get_host(slots_needed)] of section 4.4,
    first fit in registration order.  A host is handed around by name. *)
Definition get_host (n : Z) (w : world) : option string :=
  host_name <$> List.find (fun h => n <=? max_agents h - running_agents h) (hosts w).

Definition same_job (a b : job) : bool := job_id a =? job_id b.

Definition occupy (hn : string) (d : Z) (h : host) : host :=
  if String.eqb (host_name h) hn
  then Host (host_name h) (address h) (agent_dir h) (max_agents h)
            (running_agents h + d)
  else h.

(** Modelled from the spec: [agent_init(host, job, 0)] is [launch] of
    section 4.2.  Without a host, without capacity on it, or without a
    meta-agent for the job's type the launch fails and nothing changes
    (the job stays claimed).  Otherwise the host's count goes up, the job
    becomes RUNNING and a new agent is live. *)
Definition agent_init (h : option string) (jb : job) (z : Z) (w : world) : world :=
  match h with
  | None => w
  | Some hn =>
      match find_host hn w, find_meta (type_name jb) w with
      | Some hs, Some m =>
          if running_agents hs <? max_agents hs
          then World (map (occupy hn 1) (hosts w)) (meta_agents w) (pending w)
                     (List.filter (fun x => negb (same_job x jb)) (claimed w))
                     (agents w ++ [Agent (next_pid w) hn (meta_name m) jb])
                     (resolved w) (next_pid w + 1) (terminated w)
          else w
      | _, _ => w
      end
  end.

(** Modelled from the spec: [release(job)] of section 4.3.  The policy
    never calls it. *)
Definition release (jb : job) (w : world) : world :=
  World (hosts w) (meta_agents w) (pending w ++ [jb])
        (List.filter (fun x => negb (same_job x jb)) (claimed w))
        (agents w) (resolved w) (next_pid w) (terminated w).

(** Modelled from the spec: [event_loop_terminate()], section 4.1. *)
Definition event_loop_terminate (w : world) : world :=
  World (hosts w) (meta_agents w) (pending w) (claimed w) (agents w)
        (resolved w) (next_pid w) true.

(** Modelled from the spec: [notify_death(pid, os_status)] of section
    4.2; an unknown pid is ignored (section 7). *)
Definition notify_death (p status : Z) (w : world) : world :=
  match List.find (fun a => agent_pid a =? p) (agents w) with
  | None => w
  | Some a =>
      World (map (occupy (agent_host a) (-1)) (hosts w)) (meta_agents w)
            (pending w) (claimed w)
            (List.filter (fun x => negb (agent_pid x =? p)) (agents w))
            (resolved w ++ [(agent_job a, status)]) (next_pid w) (terminated w)
  end.

(** Modelled from the spec: the job queue delivering new PENDING jobs
    from persistent storage. *)
Definition enqueue (jbs : list job) (w : world) : world :=
  World (hosts w) (meta_agents w) (pending w ++ jbs) (claimed w) (agents w)
        (resolved w) (next_pid w) (terminated w).

Lemma select_length elig l jb rest :
  select elig l = Some (jb, rest) -> S (length rest) = length l.
Proof.
  revert jb rest. induction l as [|x l IH]; intros jb rest; simpl; [discriminate|].
  destruct (select elig l) as [[y r]|] eqn:E.
  - destruct (elig x && (priority y <=? priority x)); intros [= <- <-]; simpl.
    + reflexivity.
    + f_equal. eapply IH. reflexivity.
  - destruct (elig x); [intros [= <- <-]; reflexivity | discriminate].
Qed.

Lemma next_job_backlog w jb w' :
  next_job w = (Some jb, w') -> (length (pending w') < length (pending w))%nat.
Proof.
  unfold next_job. destruct (select _ _) as [[y r]|] eqn:E; [|discriminate].
  intros [= <- <-]. simpl. apply select_length in E. lia.
Qed.

Lemma agent_init_backlog h jb z w :
  (length (pending (agent_init h jb z w)) <= length (pending w))%nat.
Proof.
  unfold agent_init. destruct h as [hn|]; [|reflexivity].
  destruct (find_host hn w) as [hs|]; [|reflexivity].
  destruct (find_meta _ w) as [m|]; [|reflexivity].
  destruct (running_agents hs <? max_agents hs); reflexivity.
Qed.

(** The collaborators of the tick, as specified. *)
Definition spec_collaborators : Policy.collaborators job string world :=
  Policy.Collaborators num_agents active_jobs next_job job_type is_exclusive
    get_host agent_init event_loop_terminate
    (fun w => length (pending w)) next_job_backlog agent_init_backlog.

End Model.

(** ** Part III.  Running C code that may exit

    A C function of the scheduler either returns a value, leaves the
    process through [exit], or does something the C standard leaves
    undefined (an access through NULL, a write past a buffer).  [run S A]
    is such a computation over a state [S]. *)

Module Run.

Inductive outcome (S A : Type) : Type :=
  | Ret (a : A) (s : S)
  | Exit (code : Z) (s : S)
  | Undefined (s : S).

Arguments Ret {S A} a s.
Arguments Exit {S A} code s.
Arguments Undefined {S A} s.

Definition run (S A : Type) : Type := S -> outcome S A.

Definition ret {S A} (a : A) : run S A := fun s => Ret a s.

Definition bind {S A B} (m : run S A) (k : A -> run S B) : run S B :=
  fun s =>
    match m s with
    | Ret a s' => k a s'
    | Exit code s' => Exit code s'
    | Undefined s' => Undefined s'
    end.

Definition get {S} : run S S := fun s => Ret s s.
Definition put {S} (s : S) : run S unit := fun _ => Ret tt s.
Definition modify {S} (f : S -> S) : run S unit := fun s => Ret tt (f s).

(** [exit(code)] *)
Definition exit {S A} (code : Z) : run S A := fun s => Exit code s.
Definition undefined {S A} : run S A := fun s => Undefined s.

(** Run a computation on a part [S] of a larger state [P]. *)
Definition on {P S A} (proj : P -> S) (upd : S -> P -> P) (m : run S A) : run P A :=
  fun p =>
    match m (proj p) with
    | Ret a s => Ret a (upd s p)
    | Exit code s => Exit code (upd s p)
    | Undefined s => Undefined (upd s p)
    end.

(** [if (c) m;] *)
Definition when {S} (c : bool) (m : run S unit) : run S unit :=
  if c then m else ret tt.

Definition final {S A} (o : outcome S A) : S :=
  match o with Ret _ s | Exit _ s | Undefined s => s end.

End Run.

Import Run.

Declare Scope run_scope.
Delimit Scope run_scope with run.
Notation "x <- m ;; k" := (Run.bind m (fun x => k))
  (at level 100, m at next level, right associativity) : run_scope.
Notation "m ;; k" := (Run.bind m (fun _ => k))
  (at level 100, right associativity) : run_scope.

(** ** Part IV.  The process lock: [get_locked_pid], [lock_scheduler] *)

Module Lock.

(** The shared-memory object named PROCESS_NAME, as this process meets
    it.  [Absent]: there is no such object, and [shm_open] without
    O_CREAT fails with ENOENT.  [Holds content]: an object this process
    can open and read.  [Denied]: an object this process cannot open;
    [shm_open] fails with an errno other than ENOENT. *)
Inductive object : Type :=
  | Absent
  | Holds (content : list ascii)
  | Denied.

(** What the lock functions see of the operating system.  [obj]: the
    object.  [live]: the processes [kill(pid, sig)] can reach.  [self]:
    [getpid()].  [create_fails], [write_fails]: whether the exclusive
    [shm_open] and the [write] of [lock_scheduler] fail for a reason of
    the system's own.  [unlink_fails]: whether [shm_unlink] fails on an
    object that exists.  [sent]: the signals sent so far, as
    (pid, signal). *)
Record os : Type := Os {
  obj : object;
  live : list Z;
  self : Z;
  create_fails : bool;
  write_fails : bool;
  unlink_fails : bool;
  sent : list (Z * Z)
}.

(** The contents of the object, when there is one this process can
    read. *)
Definition shm (o : os) : option (list ascii) :=
  match obj o with
  | Holds content => Some content
  | Absent | Denied => None
  end.

Definition set_obj (x : object) (o : os) : os :=
  Os x (live o) (self o) (create_fails o) (write_fails o) (unlink_fails o)
     (sent o).

(** The object replaced by a readable one holding [c], or removed. *)
Definition set_shm (c : option (list ascii)) (o : os) : os :=
  set_obj (match c with Some content => Holds content | None => Absent end) o.

Definition SIGQUIT : Z := 3.

Definition NUL : ascii := Ascii.zero.

(** [isspace] in the C locale. *)
Definition isspace (c : ascii) : bool :=
  let n := nat_of_ascii c in
  (n =? 32)%nat || ((9 <=? n)%nat && (n <=? 13)%nat).

Definition digit_value (c : ascii) : option Z :=
  let n := nat_of_ascii c in
  if (48 <=? n)%nat && (n <=? 57)%nat then Some (Z.of_nat n - 48) else None.

Definition digit_char (d : Z) : ascii := ascii_of_nat (Z.to_nat (48 + d)).

Fixpoint skip_spaces (l : list ascii) : list ascii :=
  match l with
  | c :: l' => if isspace c then skip_spaces l' else l
  | [] => []
  end.

Fixpoint atoi_digits (acc : Z) (l : list ascii) : Z :=
  match l with
  | c :: l' =>
      match digit_value c with
      | Some d => atoi_digits (10 * acc + d) l'
      | None => acc
      end
  | [] => acc
  end.

(** The bounds of a [long] of 64 bits. *)
Definition LONG_MAX : Z := 2 ^ 63 - 1.
Definition LONG_MIN : Z := - 2 ^ 63.

(** [strtol(buf, NULL, 10)]: blanks, a sign, digits up to the first
    other character; a number that does not fit a [long] gives LONG_MAX
    or LONG_MIN. *)
Definition strtol (l : list ascii) : Z :=
  match skip_spaces l with
  | "-"%char :: l' => Z.max LONG_MIN (- atoi_digits 0 l')
  | "+"%char :: l' => Z.min LONG_MAX (atoi_digits 0 l')
  | l' => Z.min LONG_MAX (atoi_digits 0 l')
  end.

(** The value of a [long] cast to a 32-bit [int]. *)
Definition to_int (z : Z) : Z := (z + 2 ^ 31) mod 2 ^ 32 - 2 ^ 31.

(** [atoi(buf)], as [(int) strtol(buf, NULL, 10)].  The end of the ten
    bytes of [buf] ends the number too. *)
Definition atoi (l : list ascii) : Z := to_int (strtol l).

(** The [k] lowest decimal digits of [n], highest first. *)
Fixpoint dec_digits (k : nat) (n : Z) : list ascii :=
  match k with
  | O => []
  | S k' => dec_digits k' (n / 10) ++ [digit_char (n mod 10)]
  end.

(** [sprintf(buf, "%-9.9d", n)] into [char buf[10]]: at least nine
    digits, zero-padded, then the terminating NUL.  A negative [n] or one
    of ten digits does not fit the ten bytes; the write past [buf] is
    undefined, and the result is [None]. *)
Definition sprintf_pid (n : Z) : option (list ascii) :=
  if (0 <=? n) && (n <? 10 ^ 9) then Some (dec_digits 9 n ++ [NUL]) else None.

(** [memset(buf, 0, size); read(handle, buf, size)] on an object holding
    [content]. *)
Definition read_buf (content : list ascii) (size : nat) : list ascii :=
  take size content ++ replicate (size - length content) NUL.

(** [kill(pid, sig)]: 0 when [pid] is reached, -1 otherwise; a signal
    other than 0 is delivered. *)
Definition kill (pid sig : Z) : run os Z :=
  fun o =>
    if bool_decide (pid ∈ live o)
    then Ret 0 (if sig =? 0 then o
                else Os (obj o) (live o) (self o) (create_fails o)
                        (write_fails o) (unlink_fails o)
                        (sent o ++ [(pid, sig)]))
    else Ret (-1) o.

(** [shm_unlink(PROCESS_NAME)]: -1 when there is no object, or when the
    system refuses to remove it. *)
Definition shm_unlink : run os Z :=
  fun o =>
    match obj o with
    | Absent => Ret (-1) o
    | Holds _ | Denied =>
        if unlink_fails o then Ret (-1) o else Ret 0 (set_shm None o)
    end.

(** [unlock_scheduler()], lines 217-220. *)
Definition unlock_scheduler : run os Z := shm_unlink.

Local Open Scope run_scope.

(** [get_locked_pid()], lines 227-261.  The diagnostics of ERROR are not
    modelled: the two ways [shm_open] fails differ by a diagnostic only,
    and so do the two results of the [shm_unlink] of an invalid lock. *)
Definition get_locked_pid : run os Z :=
  o <- get ;;
  match obj o with
  | Absent => ret 0
  | Denied => ret 0
  | Holds content =>
      let buf := read_buf content 10 in
      let pid := atoi buf in
      if pid <? 2
      then (r <- shm_unlink ;; if r =? -1 then ret 0 else ret 0)
      else
        r <- kill pid 0 ;;
        if r =? 0 then ret pid
        else (unlock_scheduler ;; ret 0)
  end.

(** [shm_open(PROCESS_NAME, O_RDWR|O_CREAT|O_EXCL, 0744)]: the new,
    empty object, or -1; an object that exists, readable or not, makes
    it fail with EEXIST. *)
Definition shm_create : run os Z :=
  fun o =>
    match obj o with
    | Absent => if create_fails o then Ret (-1) o else Ret 3 (set_shm (Some []) o)
    | Holds _ | Denied => Ret (-1) o
    end.

(** [write(handle, buf, sizeof(buf))] at the start of the object. *)
Definition write_buf (buf : list ascii) : run os Z :=
  fun o =>
    if write_fails o then Ret (-1) o
    else Ret (Z.of_nat (length buf)) (set_shm (Some buf) o).

(** [lock_scheduler()], lines 268-293.  The [event_signal] call after
    the first [return -1] is never reached. *)
Definition lock_scheduler : run os Z :=
  pid <- get_locked_pid ;;
  if negb (pid =? 0) then ret pid
  else
    handle <- shm_create ;;
    if handle =? -1 then ret (-1)
    else
      o <- get ;;
      match sprintf_pid (self o) with
      | None => undefined
      | Some buf =>
          n <- write_buf buf ;;
          if n <? 1 then ret (-1) else ret 0
      end.

(** [kill_scheduler()], lines 342-361. *)
Definition kill_scheduler : run os unit :=
  pid <- get_locked_pid ;;
  if negb (pid =? 0)
  then
    r <- kill pid SIGQUIT ;;
    if r =? -1 then ret tt
    else (unlock_scheduler ;; ret tt)
  else ret tt.

End Lock.

(** ** Part V.  Events

    [event_signal(fn, arg)] puts the callback [fn] with its argument at
    the end of the event queue (event.c).  The callbacks are the
    functions of type [void(void* )] the scheduler passes around. *)

Module Events.

Inductive callback : Type :=
  | agent_death_event
  | agent_update_event
  | database_update_event
  | scheduler_close_event
  | load_config_event.

(** The [void*] argument: NULL, or the address of a [pid_t] array, which
    stands here for the array's slots. *)
Inductive payload : Type :=
  | NULL
  | Pids (pid_list : list Z).

Definition event : Type := callback * payload.

Definition is_reload (e : event) : bool :=
  match fst e with load_config_event => true | _ => false end.

Definition is_agent_death (e : event) : bool :=
  match fst e with agent_death_event => true | _ => false end.

End Events.

(** ** Part VI.  Dropping privileges: [set_usr_grp] *)

Module Privilege.

Import Events.

(** [group_gid], [user_uid]: what [getgrnam(PROJECT_GROUP)->gr_gid] and
    [getpwnam(PROJECT_USER)->pw_uid] find, [None] when the lookup returns
    NULL.  [may_*]: whether the kernel grants the call to this process.
    [cap_setgid], [cap_setuid]: whether the process holds CAP_SETGID and
    CAP_SETUID when it calls [setgid] and [setuid] (it does when started
    by root): with the capability the call sets the real id with the
    effective one, without it the effective id alone.  Then the
    credentials of the process (the saved ids are left out: no call here
    reads them back), the event queue, and the lines written to
    stderr. *)
Record state : Type := State {
  group_gid : option Z;
  user_uid : option Z;
  may_setgroups : bool;
  may_setgid : bool;
  may_setegid : bool;
  may_setuid : bool;
  may_seteuid : bool;
  cap_setgid : bool;
  cap_setuid : bool;
  groups : list Z;
  gid : Z;
  egid : Z;
  uid : Z;
  euid : Z;
  events : list event;
  stderr : list string
}.

Definition with_creds (gs : list Z) (g eg u eu : Z) (s : state) : state :=
  State (group_gid s) (user_uid s) (may_setgroups s) (may_setgid s)
        (may_setegid s) (may_setuid s) (may_seteuid s) (cap_setgid s)
        (cap_setuid s) gs g eg u eu (events s) (stderr s).

Definition setgroups (gs : list Z) : run state Z :=
  fun s =>
    if may_setgroups s
    then Ret 0 (with_creds gs (gid s) (egid s) (uid s) (euid s) s)
    else Ret (-1) s.

(** [setgid(g)]: the effective group id, and with CAP_SETGID the real
    one too. *)
Definition setgid (g : Z) : run state Z :=
  fun s =>
    if may_setgid s
    then Ret 0 (with_creds (groups s) (if cap_setgid s then g else gid s) g
                  (uid s) (euid s) s)
    else Ret (-1) s.

Definition setegid (g : Z) : run state Z :=
  fun s =>
    if may_setegid s
    then Ret 0 (with_creds (groups s) (gid s) g (uid s) (euid s) s)
    else Ret (-1) s.

(** [setuid(u)]: the effective user id, and with CAP_SETUID the real
    one too. *)
Definition setuid (u : Z) : run state Z :=
  fun s =>
    if may_setuid s
    then Ret 0 (with_creds (groups s) (gid s) (egid s)
                  (if cap_setuid s then u else uid s) u s)
    else Ret (-1) s.

Definition seteuid (u : Z) : run state Z :=
  fun s =>
    if may_seteuid s
    then Ret 0 (with_creds (groups s) (gid s) (egid s) (uid s) u s)
    else Ret (-1) s.

Definition event_signal (f : callback) (arg : payload) : run state unit :=
  modify (fun s =>
    State (group_gid s) (user_uid s) (may_setgroups s) (may_setgid s)
          (may_setegid s) (may_setuid s) (may_seteuid s) (cap_setgid s)
          (cap_setuid s) (groups s) (gid s) (egid s) (uid s) (euid s)
          (events s ++ [(f, arg)]) (stderr s)).

Definition fprintf_stderr (line : string) : run state unit :=
  modify (fun s =>
    State (group_gid s) (user_uid s) (may_setgroups s) (may_setgid s)
          (may_setegid s) (may_setuid s) (may_seteuid s) (cap_setgid s)
          (cap_setuid s) (groups s) (gid s) (egid s) (uid s) (euid s)
          (events s) (stderr s ++ [line])).

(** [p->field] for a pointer [p] that may be NULL. *)
Definition deref {A} (p : option A) : run state A :=
  match p with
  | Some a => ret a
  | None => undefined
  end.

Local Open Scope run_scope.

(** [a != 0 || b != 0], the second call made only when the first
    returned 0. *)
Definition either_fails (a b : run state Z) : run state bool :=
  r <- a ;;
  if negb (r =? 0) then ret true
  else (r' <- b ;; ret (negb (r' =? 0))).

(** [set_usr_grp()], lines 300-337.  The messages are shortened. *)
Definition set_usr_grp : run state unit :=
  s <- get ;;
  let grp := group_gid s in
  (* if(!grp) { TODO error message } *)
  when (bool_decide (grp = None)) (ret tt) ;;
  g <- deref grp ;;
  setgroups [g] ;;
  g <- deref grp ;;
  failed <- either_fails (setgid g) (g' <- deref grp ;; setegid g') ;;
  if failed
  then (event_signal database_update_event NULL ;;
        fprintf_stderr "FATAL: must be run as root or PROJECT_USER" ;;
        fprintf_stderr "FATAL Set group aborting due to error" ;;
        exit (-1))
  else
    let pwd := user_uid s in
    if bool_decide (pwd = None)
    then (fprintf_stderr "FATAL: user not found" ;; exit (-1))
    else
      u <- deref pwd ;;
      failed <- either_fails (setuid u) (seteuid u) ;;
      if failed
      then (fprintf_stderr "FATAL: must run this as PROJECT_USER" ;;
            fprintf_stderr "FATAL SETUID aborting due to error" ;;
            exit (-1))
      else ret tt.

End Privilege.

(** ** Part VII.  Loading the configuration: [load_config] *)

Module Config.

Record host_entry : Type := HostEntry {
  h_name : string;
  h_address : string;
  h_dir : string;
  h_max : Z
}.

Record meta_entry : Type := MetaEntry {
  m_name : string;
  m_command : string;
  m_max : Z;
  m_special : Z
}.

(** An agent's configuration file as the fo_config calls answer for it:
    a [None] is a call that sets [error]. *)
Record agent_conf : Type := AgentConf {
  has_default : bool;
  special_list : option (list (option string));
  conf_name : option string;
  conf_command : option string;
  conf_max : option string
}.

Inductive conf_file : Type :=
  | Missing
  | Unreadable
  | Parsed (c : agent_conf).

Record dir_entry : Type := DirEntry {
  d_name : string;
  d_conf : conf_file
}.

(** What [sscanf(tmp, "%s %s %d", addbuf, dirbuf, &max)] takes from a
    HOSTS value: the fields up to the first one that is missing or
    cannot be read. *)
Inductive scanned : Type :=
  | Scan0
  | Scan1 (addr : string)
  | Scan2 (addr dir : string)
  | Scan3 (addr dir : string) (max : Z).

(** The main configuration file.  [default_error]: whether
    [fo_config_load_default] sets [error].  [conf_port]: what
    [fo_config_get("FOSSOLOGY", "port", ...)] returns, [None] for NULL.
    [conf_hosts]: the keys of HOSTS in order, each with what [sscanf]
    takes from its value, [None] when [fo_config_get] sets [error]. *)
Record foss_conf : Type := FossConf {
  default_error : bool;
  conf_port : option string;
  conf_hosts : list (string * option scanned)
}.

(** The files on disk ([foss], [mods_enabled]: [None] when the directory
    cannot be opened), the build-time strings DEFAULT_SETUP, AGENT_CONF
    and AGENT_DIR, and the registries the configuration is loaded
    into. *)
Record registry : Type := Registry {
  foss : foss_conf;
  mods_enabled : option (list dir_entry);
  DEFAULT_SETUP : string;
  AGENT_CONF : string;
  AGENT_DIR : string;
  s_port : Z;
  port : Z;
  host_list : list host_entry;
  meta_list : list meta_entry;
  tested : list string
}.

Definition with_lists (sp p : Z) (hl : list host_entry) (ml : list meta_entry)
    (t : list string) (r : registry) : registry :=
  Registry (foss r) (mods_enabled r) (DEFAULT_SETUP r) (AGENT_CONF r)
           (AGENT_DIR r) sp p hl ml t.

(** The bit of [special] for an EXCLUSIVE agent (agent.h); nothing
    below depends on which bit it is. *)
Definition SAG_EXCLUSIVE : Z := 1.

(** Modelled from the spec: FATAL of logging.h ends the process with a
    negative exit code (sections 6 and 7). *)
Definition FATAL {S A} (msg : string) : run S A := exit (-1).

Definition host_list_clean : run registry unit :=
  modify (fun r => with_lists (s_port r) (port r) [] (meta_list r) (tested r) r).

Definition agent_list_clean : run registry unit :=
  modify (fun r => with_lists (s_port r) (port r) (host_list r) [] (tested r) r).

Definition host_init (name addr dir : string) (max : Z) : run registry unit :=
  modify (fun r =>
    with_lists (s_port r) (port r)
      (host_list r ++ [HostEntry name addr dir max]) (meta_list r) (tested r) r).

(** Modelled from the spec: [add_meta_agent] is [add] of section 4.5; it
    rejects a duplicate name and an empty name or command. *)
Definition add_meta_agent (name cmd : string) (max special : Z) : run registry bool :=
  fun r =>
    if String.eqb name "" || String.eqb cmd ""
       || existsb (fun m => String.eqb (m_name m) name) (meta_list r)
    then Ret false r
    else Ret true
           (with_lists (s_port r) (port r) (host_list r)
              (meta_list r ++ [MetaEntry name cmd max special]) (tested r) r).

(** [for_each_host(test_agents)]: the hosts visited, in registration
    order. *)
Definition for_each_host_test_agents : run registry unit :=
  modify (fun r =>
    with_lists (s_port r) (port r) (host_list r) (meta_list r)
      (tested r ++ map h_name (host_list r)) r).

Definition set_port (p : Z) : run registry unit :=
  modify (fun r => with_lists (s_port r) p (host_list r) (meta_list r) (tested r) r).

Definition atoi_string (s : string) : Z := Lock.atoi (String.list_ascii_of_string s).

(** The loop over the [special] list: an element that cannot be read
    is skipped. *)
Definition special_of (l : list (option string)) : Z :=
  fold_left (fun special e =>
               match e with
               | Some cmd =>
                   if String.eqb cmd "EXCLUSIVE"
                   then Z.lor special SAG_EXCLUSIVE else special
               | None => special
               end) l 0.

(** A string that fits, with its NUL, the [char[256]] buffers [addbuf]
    and [dirbuf]. *)
Definition fits (s : string) : bool := (String.length s <? 256)%nat.

(** ["%s/%s/%s/%s.conf"] of DEFAULT_SETUP, AGENT_CONF and twice the
    name of the entry. *)
Definition conf_path (r : registry) (name : string) : string :=
  (DEFAULT_SETUP r ++ "/" ++ AGENT_CONF r ++ "/" ++ name ++ "/" ++ name
   ++ ".conf")%string.

Local Open Scope run_scope.

(** What the configuration file of an entry asks for, once it is
    loaded. *)
Definition load_agent_file (c : conf_file) : run registry unit :=
  match c with
  | Missing => ret tt
  | Unreadable => ret tt
  | Parsed c =>
      if negb (has_default c) then ret tt
      else
        match special_list c with
        | None => ret tt
        | Some l =>
            let special := special_of l in
            match conf_name c, conf_command c, conf_max c with
            | Some name, Some cmd, Some tmp =>
                add_meta_agent name cmd (atoi_string tmp) special ;; ret tt
            | _, _, _ => ret tt
            end
        end
  end.

(** One turn of the [readdir] loop of [load_agent_config].  The
    [sprintf] of the path into [addbuf] has no bound: a path that does
    not fit is written past the buffer. *)
Definition load_agent_entry (ep : dir_entry) : run registry unit :=
  match d_name ep with
  | String "."%char _ => ret tt
  | _ =>
      r <- get ;;
      if fits (conf_path r (d_name ep)) then load_agent_file (d_conf ep)
      else undefined
  end.

Fixpoint for_each {S A} (f : A -> run S unit) (l : list A) : run S unit :=
  match l with
  | [] => ret tt
  | x :: l' => f x ;; for_each f l'
  end.

(** A loop that carries the locals [b] from turn to turn. *)
Fixpoint for_each_from {S A B} (f : B -> A -> run S B) (l : list A) (b : B)
  : run S B :=
  match l with
  | [] => ret b
  | x :: l' => b' <- f b x ;; for_each_from f l' b'
  end.

(** [load_agent_config()], lines 366-453.  What the function prints is
    left out. *)
Definition load_agent_config : run registry unit :=
  agent_list_clean ;;
  r <- get ;;
  match mods_enabled r with
  | None => FATAL "Could not open agent config directory"
  | Some entries =>
      for_each load_agent_entry entries ;;
      for_each_host_test_agents
  end.

(** The locals [addbuf], [dirbuf] and [max] of [load_foss_config], which
    are declared outside its loop.  A buffer is [None] until something
    is written to it. *)
Record locals : Type := Locals {
  addbuf : option string;
  dirbuf : option string;
  max : Z
}.

(** [char addbuf[256]; char dirbuf[256]; int max = -1;] *)
Definition fresh : locals := Locals None None (-1).

(** [sscanf(tmp, "%s %s %d", addbuf, dirbuf, &max)]: the fields read are
    stored and the others keep what they held; the count [sscanf]
    returns is not looked at.  [None]: a field does not fit its buffer
    and is written past it. *)
Definition sscanf (v : scanned) (b : locals) : option locals :=
  match v with
  | Scan0 => Some b
  | Scan1 a =>
      if fits a then Some (Locals (Some a) (dirbuf b) (max b)) else None
  | Scan2 a d =>
      if fits a && fits d then Some (Locals (Some a) (Some d) (max b)) else None
  | Scan3 a d m =>
      if fits a && fits d then Some (Locals (Some a) (Some d) m) else None
  end.

(** [strcpy(dirbuf, src)] *)
Definition strcpy_dirbuf (src : string) (b : locals) : option locals :=
  if fits src then Some (Locals (addbuf b) (Some src) (max b)) else None.

(** The string a [char*] is read as: a buffer that was never written,
    and a NULL, hold no string to read. *)
Definition string_in {S} (buf : option string) : run S string :=
  match buf with
  | Some str => ret str
  | None => undefined
  end.

(** A library call that writes to a buffer. *)
Definition written {S} (b : option locals) : run S locals :=
  match b with
  | Some b' => ret b'
  | None => undefined
  end.

(** One turn of the loop over the HOSTS keys. *)
Definition load_host (b : locals) (kv : string * option scanned)
  : run registry locals :=
  match snd kv with
  | None => ret b
  | Some v =>
      b <- written (sscanf v b) ;;
      a <- string_in (addbuf b) ;;
      r <- get ;;
      b <- (if String.eqb a "localhost"
            then written (strcpy_dirbuf (AGENT_DIR r) b)
            else ret b) ;;
      a <- string_in (addbuf b) ;;
      d <- string_in (dirbuf b) ;;
      host_init (fst kv) a d (max b) ;;
      ret b
  end.

(** [load_foss_config()], lines 458-507.  What the function prints is
    left out.  A port key that is missing makes [fo_config_get] return
    NULL, which [atoi] reads. *)
Definition load_foss_config : run registry unit :=
  host_list_clean ;;
  r <- get ;;
  when (default_error (foss r)) (FATAL "fo_config_load_default") ;;
  when (s_port r <? 0)
       (tmp <- string_in (conf_port (foss r)) ;;
        modify (fun r => with_lists (atoi_string tmp) (port r)
                           (host_list r) (meta_list r) (tested r) r)) ;;
  r <- get ;;
  set_port (s_port r) ;;
  for_each_from load_host (conf_hosts (foss r)) fresh ;;
  ret tt.

(** [load_config(unused)], lines 514-518. *)
Definition load_config (unused : Events.payload) : run registry unit :=
  load_foss_config ;;
  load_agent_config.

End Config.

(** ** Part VIII.  The signal handlers: [chld_sig], [prnt_sig] *)

Module Signals.

Import Events.

Definition SIGHUP : Z := 1.
Definition SIGINT : Z := 2.
Definition SIGQUIT : Z := 3.
Definition SIGALRM : Z := 14.
Definition SIGTERM : Z := 15.
Definition SIGCHLD : Z := 17.
Definition WNOHANG : Z := 1.

(** The period of the alarm, in seconds (scheduler.h); nothing below
    depends on its value. *)
Definition CHECK_TIME : Z := 120.

(** One call of [waitpid] as the handler made it. *)
Record wait_call : Type := WaitCall {
  wait_pid : Z;
  wait_options : Z;
  wait_result : Z
}.

(** [events]: the event queue.  [alarm_in]: the pending alarm.  [log]:
    the lines of [lprintf].  [zombies]: the children that have died and
    have not been waited for.  [children]: whether a child is still
    running.  [agents]: what [num_agents()] returns.  [waits]: the
    [waitpid] calls so far.  [reg]: the configuration and registries. *)
Record sched : Type := Sched {
  events : list event;
  alarm_in : option Z;
  log : list string;
  zombies : list positive;
  children : bool;
  agents : Z;
  waits : list wait_call;
  reg : Config.registry
}.

Definition event_signal (f : callback) (arg : payload) : run sched unit :=
  modify (fun s =>
    Sched (events s ++ [(f, arg)]) (alarm_in s) (log s) (zombies s)
          (children s) (agents s) (waits s) (reg s)).

Definition alarm (seconds : Z) : run sched unit :=
  modify (fun s =>
    Sched (events s) (Some seconds) (log s) (zombies s) (children s)
          (agents s) (waits s) (reg s)).

Definition lprintf (line : string) : run sched unit :=
  modify (fun s =>
    Sched (events s) (alarm_in s) (log s ++ [line]) (zombies s) (children s)
          (agents s) (waits s) (reg s)).

Definition num_agents : run sched Z := fun s => Ret (agents s) s.

(** [waitpid(-1, &status, WNOHANG)]: the pid of a dead child, which is
    thereby reaped; 0 when children run and none is dead; -1 when there
    is no child.  It never waits. *)
Definition waitpid_nohang : run sched Z :=
  fun s =>
    let '(r, zs) :=
      match zombies s with
      | z :: zs => (Z.pos z, zs)
      | [] => (if children s then 0 else -1, [])
      end in
    Ret r (Sched (events s) (alarm_in s) (log s) zs (children s) (agents s)
                 (waits s ++ [WaitCall (-1) WNOHANG r]) (reg s)).

(** [g_new0(pid_t, n)]: [n] slots holding 0. *)
Definition g_new0 (n : Z) : list Z := replicate (Z.to_nat n) 0.

(** [a[idx] = v] on an array of [length a] slots; a store outside the
    array is undefined. *)
Definition store (a : list Z) (idx v : Z) : run sched (list Z) :=
  if bool_decide (0 <= idx < Z.of_nat (length a))
  then ret (<[Z.to_nat idx := v]> a)
  else undefined.

Local Open Scope run_scope.

(** The loop [while((n = waitpid(-1, &status, WNOHANG)) > 0)
    pid_list[idx++] = n;]  The result is the array and [idx]; [None] says
    the loop was cut off after [fuel] turns. *)
Fixpoint reap (fuel : nat) (pid_list : list Z) (idx : Z)
  : run sched (option (list Z * Z)) :=
  match fuel with
  | O => ret None
  | S fuel' =>
      n <- waitpid_nohang ;;
      if 0 <? n
      then (pid_list' <- store pid_list idx n ;; reap fuel' pid_list' (idx + 1))
      else ret (Some (pid_list, idx))
  end.

(** [chld_sig(signo)], lines 86-106.  Every dead child ends one turn of
    the loop, so one turn more than there are dead children is enough.
    The line printed under TVERBOSE2 is left out. *)
Definition chld_sig (signo : Z) : run sched unit :=
  n <- num_agents ;;
  let pid_list := g_new0 (n + 1) in
  s <- get ;;
  r <- reap (S (length (zombies s))) pid_list 0 ;;
  match r with
  | Some (pid_list, idx) => event_signal agent_death_event (Pids pid_list)
  | None => ret tt
  end.

(** [load_config(NULL)] on the registries of the scheduler. *)
Definition load_config (unused : payload) : run sched unit :=
  on reg (fun r s => Sched (events s) (alarm_in s) (log s) (zombies s)
                           (children s) (agents s) (waits s) r)
     (Config.load_config unused).

(** [prnt_sig(signo)], lines 120-146. *)
Definition prnt_sig (signo : Z) : run sched unit :=
  if signo =? SIGALRM then
    lprintf "SIGNALS: Scheduler received alarm signal, checking job states" ;;
    event_signal agent_update_event NULL ;;
    event_signal database_update_event NULL ;;
    alarm CHECK_TIME
  else if signo =? SIGTERM then
    lprintf "SIGNALS: Scheduler received terminate signal, shutting down scheduler" ;;
    event_signal scheduler_close_event NULL
  else if signo =? SIGQUIT then
    lprintf "SIGNALS: Scheduler received quit signal, shutting down scheduler" ;;
    event_signal scheduler_close_event NULL
  else if signo =? SIGINT then
    lprintf "SIGNALS: Scheduler received interrupt signal, shutting down scheduler" ;;
    event_signal scheduler_close_event NULL
  else if signo =? SIGHUP then
    load_config NULL
  else ret tt.

End Signals.

(** ** Part IX.  Start-up: [main] *)

Module Startup.

Import Events.

Inductive handler : Type :=
  | chld_sig
  | prnt_sig.

(** What [g_option_context_parse] leaves: an error, or the values of the
    flags given on the command line. *)
Record options : Type := Options {
  parse_error : bool;
  opt_daemon : bool;
  opt_database : bool;
  opt_kill : bool;
  opt_log : option string;
  opt_port : option Z;
  opt_reset : bool;
  opt_test : bool;
  opt_verbose : option Z
}.

(** The process: credentials, the lock's view of the system, the
    scheduler state of the signal handlers, the installed handlers, the
    calls made to the collaborators that are not modelled further, and
    the global flags. *)
Record proc : Type := Proc {
  priv : Privilege.state;
  os : Lock.os;
  sched : Signals.sched;
  handlers : list (Z * handler);
  calls : list string;
  closing : bool;
  verbose : Z;
  s_pid : Z;
  s_daemon : bool
}.

Definition set_events (ev : list event) (s : Signals.sched) : Signals.sched :=
  Signals.Sched ev (Signals.alarm_in s) (Signals.log s) (Signals.zombies s)
    (Signals.children s) (Signals.agents s) (Signals.waits s) (Signals.reg s).

Definition set_reg (r : Config.registry) (s : Signals.sched) : Signals.sched :=
  Signals.Sched (Signals.events s) (Signals.alarm_in s) (Signals.log s)
    (Signals.zombies s) (Signals.children s) (Signals.agents s)
    (Signals.waits s) r.

Definition priv_events (ev : list event) (s : Privilege.state) : Privilege.state :=
  Privilege.State (Privilege.group_gid s) (Privilege.user_uid s)
    (Privilege.may_setgroups s) (Privilege.may_setgid s)
    (Privilege.may_setegid s) (Privilege.may_setuid s)
    (Privilege.may_seteuid s) (Privilege.cap_setgid s)
    (Privilege.cap_setuid s) (Privilege.groups s) (Privilege.gid s)
    (Privilege.egid s) (Privilege.uid s) (Privilege.euid s) ev
    (Privilege.stderr s).

(** The parts of the process the functions of the other modules run on.
    There is one event queue, the one of [sched]. *)
Definition on_priv {A} (m : run Privilege.state A) : run proc A :=
  on (fun p => priv_events (Signals.events (sched p)) (priv p))
     (fun s p => Proc s (os p) (set_events (Privilege.events s) (sched p))
                      (handlers p) (calls p) (closing p) (verbose p)
                      (s_pid p) (s_daemon p))
     m.

Definition on_os {A} (m : run Lock.os A) : run proc A :=
  on os (fun o p => Proc (priv p) o (sched p) (handlers p) (calls p)
                         (closing p) (verbose p) (s_pid p) (s_daemon p))
     m.

Definition on_sched {A} (m : run Signals.sched A) : run proc A :=
  on sched (fun s p => Proc (priv p) (os p) s (handlers p) (calls p)
                            (closing p) (verbose p) (s_pid p) (s_daemon p))
     m.

Definition on_reg {A} (m : run Config.registry A) : run proc A :=
  on_sched (on Signals.reg set_reg m).

(** A call to a collaborator whose effect is not modelled. *)
Definition call (name : string) : run proc unit :=
  modify (fun p => Proc (priv p) (os p) (sched p) (handlers p)
                        (calls p ++ [name]) (closing p) (verbose p)
                        (s_pid p) (s_daemon p)).

(** [signal(signo, h)] *)
Definition signal (signo : Z) (h : handler) : run proc unit :=
  modify (fun p => Proc (priv p) (os p) (sched p) (handlers p ++ [(signo, h)])
                        (calls p) (closing p) (verbose p) (s_pid p)
                        (s_daemon p)).

Definition set_closing (b : bool) : run proc unit :=
  modify (fun p => Proc (priv p) (os p) (sched p) (handlers p) (calls p) b
                        (verbose p) (s_pid p) (s_daemon p)).

(** [s_pid = getpid(); s_daemon = FALSE; s_port = -1;] and then the
    values the option parser writes. *)
Definition set_globals (opts : options) : run proc unit :=
  modify (fun p =>
    let r := Signals.reg (sched p) in
    let r' := Config.with_lists (default (-1) (opt_port opts)) (Config.port r)
                (Config.host_list r) (Config.meta_list r) (Config.tested r) r in
    Proc (priv p) (os p) (set_reg r' (sched p)) (handlers p) (calls p)
         (closing p) (default (verbose p) (opt_verbose opts))
         (Lock.self (os p)) (opt_daemon opts)).

Local Open Scope run_scope.

(** [close_scheduler()], lines 536-546. *)
Definition close_scheduler : run proc Z :=
  call "job_list_clean" ;;
  on_reg Config.host_list_clean ;;
  on_reg Config.agent_list_clean ;;
  call "interface_destroy" ;;
  call "database_destroy" ;;
  call "event_loop_destroy" ;;
  call "fo_RepClose" ;;
  ret 0.

(** [lock_scheduler() <= 0 && !get_locked_pid()] *)
Definition lock_error : run proc bool :=
  r <- on_os Lock.lock_scheduler ;;
  if r <=? 0
  then (pid <- on_os Lock.get_locked_pid ;; ret (pid =? 0))
  else ret false.

(** [main(argc, argv)], lines 587-684.  The run of the event loop inside
    [event_loop_enter] is not part of this function's model: the call is
    recorded and returns. *)
Definition main (opts : options) : run proc Z :=
  set_globals opts ;;
  if parse_error opts then ret (-1)
  else
    on_priv Privilege.set_usr_grp ;;
    p <- get ;;
    when (s_daemon p) (call "daemon") ;;
    if opt_database opts then (call "database_init" ;; ret 0)
    else if opt_kill opts then (on_os Lock.kill_scheduler ;; ret 0)
    else
      when (bool_decide (opt_log opts <> None)) (call "set_log") ;;
      failed <- lock_error ;;
      when failed (Config.FATAL "scheduler lock error") ;;
      call "g_thread_init" ;;
      call "g_type_init" ;;
      call "fo_RepOpen" ;;
      call "agent_list_init" ;;
      call "host_list_init" ;;
      call "job_list_init" ;;
      on_reg Config.load_foss_config ;;
      call "interface_init" ;;
      call "database_init" ;;
      on_reg Config.load_agent_config ;;
      signal Signals.SIGCHLD chld_sig ;;
      signal Signals.SIGALRM prnt_sig ;;
      signal Signals.SIGTERM prnt_sig ;;
      signal Signals.SIGQUIT prnt_sig ;;
      signal Signals.SIGINT prnt_sig ;;
      signal Signals.SIGHUP prnt_sig ;;
      when (opt_reset opts) (call "database_reset_queue") ;;
      when (opt_test opts) (set_closing true) ;;
      on_sched (Signals.event_signal database_update_event NULL) ;;
      on_sched (Signals.alarm Signals.CHECK_TIME) ;;
      call "event_loop_enter" ;;
      close_scheduler.

End Startup.

(** ** Part X.  The scheduler as a transition system

    The states the scheduler can reach from an idle start: ticks of the
    policy, agent deaths, the close event and the arrival of jobs. *)

Module System.

Import Policy Model.

Definition config : Type := Policy.statics Model.job * Model.world.

(** Modelled from the spec: [kill_agents()] is [kill_all()] of section
    4.2; it signals the agents and does not wait.  The agents leave the
    supervisor when their deaths are reported. *)
Definition kill_agents (w : world) : world := w.

(** [scheduler_close_event(unused)], lines 525-529. *)
Definition scheduler_close_event (c : config) : config :=
  (Statics true (j (fst c)) (lockout (fst c)), kill_agents (snd c)).

Inductive step : config -> config -> Prop :=
  | step_tick s w s' w' tr :
      update_scheduler spec_collaborators s w = Some (s', w', tr) ->
      step (s, w) (s', w')
  | step_death s w p status :
      step (s, w) (s, notify_death p status w)
  | step_close c :
      step c (scheduler_close_event c)
  | step_enqueue s w jbs :
      step (s, w) (s, enqueue jbs w).

(** The scheduler after its initialisations: [closing], [j] and
    [lockout] as their initialisers leave them, no job, no agent. *)
Definition boot (hs : list host) (ms : list meta_agent) : config :=
  (Statics false None false, World hs ms [] [] [] [] 2 false).

Definition reachable (c0 c : config) : Prop := rtc step c0 c.

(** The invariant of section 8: under lockout at most one agent is
    live, and a live agent is of an exclusive type. *)
Definition lockout_invariant (c : config) : Prop :=
  lockout (fst c) = true ->
  (length (agents (snd c)) <= 1)%nat /\
  forall a, a ∈ agents (snd c) -> is_exclusive (agent_meta a) (snd c) = true.

End System.

(** ** Part XI.  Scenarios

    The hosts, meta-agents and jobs of the end-to-end scenarios of
    section 8: one host of four slots, the ordinary agent type
    "copyright", an EXCLUSIVE type, and jobs A, B and C of scenario 3. *)

Module Scenario.

Import Policy Model System.

Definition localhost : host := Host "localhost" "localhost" "agents" 4 0.
Definition copyright : meta_agent := Meta "copyright" "copyright" 4 false.
Definition migrate : meta_agent := Meta "migrate" "migrate" 1 true.

Definition job_A : job := Job 1 "copyright" 3.
Definition job_B : job := Job 2 "migrate" 2.
Definition job_C : job := Job 3 "copyright" 1.

(** [closing == 0], [j == NULL], [lockout == 0]. *)
Definition idle : statics job := Statics false None false.

(** A host with room for one agent. *)
Definition one_slot : host := Host "localhost" "localhost" "agents" 1 0.

(** No agent, no claimed job, and [queue] PENDING. *)
Definition queued (hs : list host) (queue : list job) : world :=
  World hs [copyright; migrate] queue [] [] [] 2 false.

End Scenario.

(** A process about to start the scheduler: the system as the lock,
    the privilege drop and the configuration see it. *)

Module Machine.

Import Lock Privilege Config Signals.

(** The lock as the scheduler of pid 1234 wrote it. *)
Definition lock_1234 : list ascii :=
  String.list_ascii_of_string "000001234" ++ [NUL].

(** No lock yet; this process is 1234. *)
Definition unlocked : Lock.os := Os Absent [1234] 1234 false false false [].

(** The lock is held by 1234. *)
Definition locked : Lock.os :=
  Os (Holds lock_1234) [1234] 1234 false false false [].

(** No lock yet; this process is 1, the init of a container. *)
Definition unlocked_init : Lock.os := Os Absent [1] 1 false false false [].

(** The lock is held by the live process 1234; this process is 5678. *)
Definition held_by_other : Lock.os :=
  Os (Holds lock_1234) [1234; 5678] 5678 false false false [].

(** Started by root: the project user and group exist and every call
    is granted. *)
Definition as_root : Privilege.state :=
  State (Some 999) (Some 999) true true true true true true true [0] 0 0 0 0
        [] [].

(** The project group does not exist. *)
Definition no_group : Privilege.state :=
  State None (Some 999) true true true true true true true [0] 0 0 0 0 [] [].

(** Started by the project user itself: [setgroups] is refused, the
    other calls change nothing and are granted. *)
Definition as_project_user : Privilege.state :=
  State (Some 999) (Some 999) false true true true true false false [27; 999]
        999 999 999 999 [] [].

(** A configuration of one host and one agent, not loaded yet. *)
Definition on_disk : registry :=
  Registry
    (FossConf false (Some "24693")
       [("localhost", Some (Scan3 "localhost" "agents" 4))])
    (Some [DirEntry "copyright"
             (Parsed (AgentConf true (Some []) (Some "copyright")
                        (Some "copyright") (Some "2")))])
    "/usr/local/etc/fossology" "mods-enabled" "/usr/lib/fossology/agents"
    (-1) 0 [] [] [].

(** The scheduler at rest: no event, no dead child. *)
Definition at_rest : sched := Sched [] None [] [] false 0 [] on_disk.

(** Two children have died; [num_agents()] is 2. *)
Definition two_dead : sched := Sched [] None [] [41; 42]%positive true 2 [] on_disk.

(** Two children have died; [num_agents()] is 0. *)
Definition two_dead_none_counted : sched :=
  Sched [] None [] [41; 42]%positive false 0 [] on_disk.

Definition no_flags : Startup.options :=
  Startup.Options false false false false None None false false None.

(** A second scheduler starting while 1234 holds the lock. *)
Definition second_instance : Startup.proc :=
  Startup.Proc as_root held_by_other at_rest [] [] false 0 0 false.

End Machine.

(** ** Part XII.  Properties of the policy *)

Section PolicyFacts.

Import Policy.

Context {job host world : Type}.
Variable C : collaborators job host world.

Abbreviation call := (Policy.call job host).

(** How a run of the pull loop ends: with NULL from [next_job], or with
    a job of an exclusive type. *)
Definition pull_end (r : option job) : list call :=
  match r with
  | None => [Cnext_job None]
  | Some e => [Cnext_job (Some e); Cis_exclusive (job_type C e) true]
  end.

Lemma pull_jobs_enough_fuel fuel w :
  (backlog C w < fuel)%nat -> is_Some (pull_jobs C fuel w).
Proof.
  revert w. induction fuel as [|fuel IH]; intros w Hlt; [lia|]. simpl.
  destruct (next_job C w) as [[jb|] w1] eqn:Hnext; [|eexists; reflexivity].
  destruct (is_exclusive C (job_type C jb) w1); [eexists; reflexivity|].
  apply next_job_backlog in Hnext.
  pose proof (agent_init_backlog C (get_host C 1 w1) jb 0 w1) as Hle.
  destruct (IH (agent_init C (get_host C 1 w1) jb 0 w1)) as [[[r w'] tr] ->]; [lia|].
  eexists; reflexivity.
Qed.

Lemma pull_jobs_log fuel w r w' tr :
  pull_jobs C fuel w = Some (r, w', tr) ->
  exists launches, tr = launch_calls C launches ++ pull_end r.
Proof.
  revert w r w' tr. induction fuel as [|fuel IH]; intros w r w' tr; [discriminate|].
  simpl. destruct (next_job C w) as [[jb|] w1].
  - destruct (is_exclusive C (job_type C jb) w1).
    + intros [= <- <- <-]. exists []. reflexivity.
    + destruct (pull_jobs C fuel _) as [[[r0 w0] tr0]|] eqn:Hrec; [|discriminate].
      intros [= <- <- <-]. destruct (IH _ _ _ _ Hrec) as [ls ->].
      exists ((jb, get_host C 1 w1) :: ls). reflexivity.
  - intros [= <- <- <-]. exists []. reflexivity.
Qed.

Lemma pulls_absent (suf pre post : list call) c :
  forallb (fun c => negb (is_pull c)) suf = true ->
  suf = pre ++ c :: post -> is_pull c = false.
Proof.
  intros Hall ->. rewrite forallb_app in Hall. simpl in Hall.
  destruct (is_pull c); [|reflexivity].
  rewrite andb_false_r in Hall. discriminate.
Qed.

(** In the log of a tick, a pull that is answered by "exclusive" is the
    last thing the pull loop does: what follows is what the tick does
    after the loop. *)
Lemma pull_log_exclusive_last launches r suf pre e ty post :
  forallb (fun c => negb (is_pull c)) suf = true ->
  launch_calls C launches ++ pull_end r ++ suf
    = pre ++ Cnext_job (Some e) :: Cis_exclusive ty true :: post ->
  r = Some e /\ pre = launch_calls C launches /\ post = suf.
Proof.
  intros Hsuf. revert pre. induction launches as [|[jb h] ls IH]; intros pre Heq.
  - destruct r as [e'|]; simpl in Heq.
    + destruct pre as [|c1 [|c2 pre]]; simplify_eq/=; [done|].
      by pose proof (pulls_absent _ _ _ _ Hsuf eq_refl).
    + destruct pre as [|c1 pre]; simplify_eq/=.
      by pose proof (pulls_absent _ _ _ _ Hsuf eq_refl).
  - change (launch_calls C ((jb, h) :: ls))
      with ([Cnext_job (Some jb); Cis_exclusive (job_type C jb) false;
             Cagent_init h jb 0] ++ launch_calls C ls) in Heq.
    simpl in Heq.
    destruct pre as [|c1 [|c2 [|c3 pre]]]; simplify_eq/=.
    destruct (IH pre) as (-> & -> & ->); [assumption|done].
Qed.

Lemma pull_log_no_terminate launches r :
  Cevent_loop_terminate ∉ launch_calls C launches ++ pull_end r.
Proof.
  induction launches as [|[jb h] ls IH].
  - destruct r; simpl; intros H;
      repeat (apply elem_of_cons in H as [H|H]; [discriminate H|]);
      by apply elem_of_nil in H.
  - change (launch_calls C ((jb, h) :: ls))
      with ([Cnext_job (Some jb); Cis_exclusive (job_type C jb) false;
             Cagent_init h jb 0] ++ launch_calls C ls).
    rewrite <- app_assoc. simpl. intros H.
    repeat (apply elem_of_cons in H as [H|H]; [discriminate H|]).
    by apply IH.
Qed.

(** The tick in terms of [drained], the test it makes on its two
    counts. *)
Lemma update_scheduler_fuel_unfold fuel s w :
  update_scheduler_fuel C fuel s w =
  if closing s && drained C w
  then Some (s, event_loop_terminate C w, [Cevent_loop_terminate])
  else
    let lockout1 := if lockout s && drained C w then false else lockout s in
    match
      match j s with
      | None => if negb lockout1 then pull_jobs C fuel w else Some (None, w, [])
      | Some jb => Some (Some jb, w, [])
      end
    with
    | None => None
    | Some (Some jb, w1, tr) =>
        if drained C w
        then Some (Statics (closing s) None true,
                   agent_init C (get_host C 1 w1) jb 0 w1,
                   tr ++ [Cagent_init (get_host C 1 w1) jb 0])
        else Some (Statics (closing s) (Some jb) lockout1, w1, tr)
    | Some (None, w1, tr) => Some (Statics (closing s) None lockout1, w1, tr)
    end.
Proof.
  unfold update_scheduler_fuel, drained. cbv zeta.
  rewrite <- !andb_assoc. reflexivity.
Qed.

Lemma update_scheduler_returns s w : is_Some (update_scheduler C s w).
Proof.
  unfold update_scheduler. rewrite update_scheduler_fuel_unfold. cbv zeta.
  destruct (closing s && drained C w); [eexists; reflexivity|].
  destruct (j s) as [e|].
  - destruct (drained C w); eexists; reflexivity.
  - destruct (negb _).
    + destruct (pull_jobs_enough_fuel (S (backlog C w)) w) as [[[[e|] w1] tr] ->];
        [lia| |eexists; reflexivity].
      destruct (drained C w); eexists; reflexivity.
    + eexists; reflexivity.
Qed.

(** The deferral as the specification words it: a job the tick pulls
    and finds exclusive is held in [j] when the tick ends, and the tick
    launches nothing once it has pulled it. *)
Definition launch_waits_for_a_later_tick (s : statics job) (w : world) : Prop :=
  forall s' w' tr pre e ty post,
    update_scheduler C s w = Some (s', w', tr) ->
    tr = pre ++ Cnext_job (Some e) :: Cis_exclusive ty true :: post ->
    j s' = Some e /\ forallb (fun c => negb (is_launch c)) post = true.

(** C1 (as amended).  Every tick returns, and:
    - when [j] is NULL and [lockout] is 0 on entry and the tick pulls a
      job [e] that [is_exclusive] accepts, nothing is pulled after it;
      if the counts sampled on entry are not both zero, [e] is left in
      [j], nothing more is called and [lockout] stays 0; if they are
      both zero and [e] is the first job pulled, [e] is launched in this
      same tick, [lockout] becomes 1 and [j] NULL;
    - when [j] holds [e] on entry, the tick launches [e] exactly if the
      counts on entry are both zero (and the tick does not end the loop
      because of [closing]); it then sets [lockout] and clears [j], and
      that launch is its only call; otherwise it launches nothing and
      keeps [e] in [j]. *)
Theorem exclusive_job_deferred_until_drained s w :
  exists s' w' tr,
    update_scheduler C s w = Some (s', w', tr) /\
    (j s = None -> lockout s = false ->
     forall pre e ty post,
       tr = pre ++ Cnext_job (Some e) :: Cis_exclusive ty true :: post ->
       forallb (fun c => negb (is_pull c)) post = true /\
       (drained C w = false ->
        post = [] /\ j s' = Some e /\ lockout s' = false) /\
       (drained C w = true -> pre = [] ->
        exists h, post = [Cagent_init h e 0] /\ j s' = None /\ lockout s' = true)) /\
    (forall e, j s = Some e ->
       if negb (closing s) && drained C w
       then exists h, tr = [Cagent_init h e 0] /\ j s' = None /\ lockout s' = true
       else forallb (fun c => negb (is_launch c)) tr = true /\
            j s' = Some e /\ lockout s' = lockout s).
Proof.
  destruct (update_scheduler_returns s w) as [[[s' w'] tr] Hrun].
  exists s', w', tr. split; [assumption|].
  unfold update_scheduler in Hrun.
  remember (S (backlog C w)) as fuel eqn:Hfuel. clear Hfuel.
  rewrite update_scheduler_fuel_unfold in Hrun. cbv zeta in Hrun. split.
  - intros Hj Hlock pre e ty post Heq.
    destruct (closing s && drained C w) eqn:Hclose.
    { injection Hrun as <- <- <-.
      destruct pre as [|c1 [|c2 pre]]; discriminate Heq. }
    rewrite Hj, Hlock in Hrun. simpl in Hrun.
    destruct (pull_jobs C _ w) as [[[r w1] tr1]|] eqn:Hpull; [|discriminate].
    destruct (pull_jobs_log _ _ _ _ _ Hpull) as [ls ->].
    destruct r as [e1|].
    + destruct (drained C w) eqn:Hdr; injection Hrun as <- <- <-.
      * rewrite <- app_assoc in Heq.
        apply (pull_log_exclusive_last ls (Some e1) [_]) in Heq as (Hr & -> & ->);
          [|reflexivity].
        injection Hr as ->. split; [reflexivity|]. split; [discriminate|].
        intros _ _. eexists. done.
      * apply (pull_log_exclusive_last ls (Some e1) []) in Heq as (Hr & -> & ->);
          [|reflexivity].
        injection Hr as ->. split; [reflexivity|]. split; [done|discriminate].
    + injection Hrun as <- <- <-.
      apply (pull_log_exclusive_last ls None []) in Heq as (Hr & _);
        [discriminate|reflexivity].
  - intros e Hj. rewrite Hj in Hrun.
    destruct (closing s), (drained C w); simpl in *;
      injection Hrun as <- <- <-; simpl; eauto.
    all: destruct (lockout s); done.
Qed.

(** C5.  Every tick returns.  When [closing] is set and both counts are
    zero, the tick calls [event_loop_terminate] and nothing else
    ([next_job] and [agent_init] are not called), and leaves [closing],
    [j] and [lockout] as they were.  When one of the three conditions
    fails, the tick does not call [event_loop_terminate]. *)
Theorem closing_tick_ends_the_loop_only_when_drained s w :
  exists s' w' tr,
    update_scheduler C s w = Some (s', w', tr) /\
    (closing s = true /\ num_agents C w = 0 /\ active_jobs C w = 0 ->
     s' = s /\ w' = event_loop_terminate C w /\ tr = [Cevent_loop_terminate]) /\
    (~ (closing s = true /\ num_agents C w = 0 /\ active_jobs C w = 0) ->
     Cevent_loop_terminate ∉ tr).
Proof.
  destruct (update_scheduler_returns s w) as [[[s' w'] tr] Hrun].
  exists s', w', tr. split; [assumption|].
  unfold update_scheduler in Hrun.
  rewrite update_scheduler_fuel_unfold in Hrun. cbv zeta in Hrun.
  assert (Hcond : closing s && drained C w = true <->
                  closing s = true /\ num_agents C w = 0 /\ active_jobs C w = 0).
  { unfold drained. rewrite !andb_true_iff, !Z.eqb_eq. tauto. }
  destruct (closing s && drained C w).
  - injection Hrun as <- <- <-. split; [done|].
    intros Hno. destruct Hno. by apply Hcond.
  - split; [intros Hyes; apply Hcond in Hyes; discriminate|]. intros _.
    assert (Hlaunch : forall (tr0 : list call) h e,
              Cevent_loop_terminate ∉ tr0 ->
              Cevent_loop_terminate ∉ tr0 ++ [Cagent_init h e 0]).
    { intros tr0 h e Hno [H|H]%elem_of_app; [done|].
      apply elem_of_cons in H as [H|H]; [discriminate|]. by apply elem_of_nil in H. }
    destruct (j s) as [e0|].
    + destruct (drained C w); injection Hrun as <- <- <-.
      * apply (Hlaunch []). apply not_elem_of_nil.
      * apply not_elem_of_nil.
    + destruct (negb _).
      * destruct (pull_jobs C _ w) as [[[r w1] tr1]|] eqn:Hpull; [|discriminate].
        destruct (pull_jobs_log _ _ _ _ _ Hpull) as [ls ->].
        pose proof (pull_log_no_terminate ls r) as Hlog.
        destruct r as [e1|]; [destruct (drained C w)|];
          injection Hrun as <- <- <-;
          [apply Hlaunch| |]; exact Hlog.
      * injection Hrun as <- <- <-. apply not_elem_of_nil.
Qed.

(** While [lockout] is set no job is held in [j]: a tick keeps it so. *)
Lemma tick_keeps_lockout_without_job s w s' w' tr :
  (lockout s = true -> j s = None) ->
  update_scheduler C s w = Some (s', w', tr) ->
  lockout s' = true -> j s' = None.
Proof.
  intros Hinv Hrun. unfold update_scheduler in Hrun.
  remember (S (backlog C w)) as fuel eqn:Hfuel. clear Hfuel.
  rewrite update_scheduler_fuel_unfold in Hrun. cbv zeta in Hrun.
  destruct (closing s && drained C w); [by injection Hrun as <- <- <-|].
  destruct (j s) as [e|] eqn:Hj.
  - destruct (drained C w); injection Hrun as <- <- <-; [done|]. simpl.
    destruct (lockout s); [by discriminate Hinv|]. done.
  - destruct (if lockout s && drained C w then false else lockout s) eqn:Hlock;
      simpl in Hrun.
    + by injection Hrun as <- <- <-.
    + destruct (pull_jobs C _ w) as [[[[e|] w1] tr1]|]; [| |discriminate].
      * destruct (drained C w); injection Hrun as <- <- <-; done.
      * by injection Hrun as <- <- <-.
Qed.

(** The launch of an exclusive job at the end of a tick is decided on
    the counts read on entry: whatever the pull loop launched before it
    met the exclusive job does not count. *)
Lemma exclusive_launch_uses_entry_counts s w e w1 tr1 :
  j s = None -> lockout s = false -> closing s = false -> drained C w = true ->
  pull_jobs C (S (backlog C w)) w = Some (Some e, w1, tr1) ->
  update_scheduler C s w
  = Some (Statics false None true,
          agent_init C (get_host C 1 w1) e 0 w1,
          tr1 ++ [Cagent_init (get_host C 1 w1) e 0]).
Proof.
  intros Hj Hlock Hclosing Hdr Hpull. unfold update_scheduler.
  rewrite update_scheduler_fuel_unfold. cbv zeta.
  rewrite Hj, Hlock, Hclosing, Hdr. cbn [andb negb]. by rewrite Hpull.
Qed.

(** A tick entered under [lockout] while an agent is live or a job
    active calls nothing: no job is pulled and none is launched. *)
Lemma tick_under_lockout_calls_nothing s w :
  lockout s = true -> j s = None -> drained C w = false ->
  update_scheduler C s w = Some (s, w, []).
Proof.
  intros Hlock Hj Hbusy. unfold update_scheduler.
  rewrite update_scheduler_fuel_unfold. cbv zeta.
  rewrite Hlock, Hj, Hbusy, andb_false_r. simpl.
  destruct s as [c jb l]. simpl in *. by subst.
Qed.

End PolicyFacts.

(** ** Part XIII.  Ticks of the policy on the scenarios *)

Section PolicyRuns.

Import Policy Model System Scenario.

(** In every state the scheduler reaches, no job is held in [j] while
    [lockout] is set: under lockout a tick that finds the system busy
    does nothing at all. *)
Lemma reachable_lockout_without_job hs ms c :
  reachable (boot hs ms) c -> lockout (fst c) = true -> j (fst c) = None.
Proof.
  revert c. unfold reachable.
  apply (rtc_ind_r (fun c => lockout (fst c) = true -> j (fst c) = None));
    [discriminate|].
  intros c1 c2 _ Hstep IH.
  destruct Hstep as [s w s' w' tr Hrun| | |]; try exact IH.
  exact (tick_keeps_lockout_without_job spec_collaborators _ _ _ _ _ IH Hrun).
Qed.

(** C1, counterexample.  The queue holds the exclusive job B alone and
    nothing runs.  The tick pulls B and launches it at once: B is not
    held in [j] for a later tick. *)
Lemma exclusive_job_launched_by_the_tick_that_pulls_it :
  ~ launch_waits_for_a_later_tick spec_collaborators idle
      (queued [localhost] [job_B]).
Proof.
  intros Hclaim.
  destruct (Hclaim (Statics false None true) _ _ [] job_B "migrate"
              [Cagent_init (Some "localhost") job_B 0] eq_refl eq_refl)
    as [Hj _].
  discriminate Hj.
Qed.

(** The same tick, call by call. *)
Example tick_on_exclusive_job_alone :
  exists w',
    update_scheduler spec_collaborators idle (queued [localhost] [job_B])
    = Some (Statics false None true, w',
            [Cnext_job (Some job_B); Cis_exclusive "migrate" true;
             Cagent_init (Some "localhost") job_B 0])
    /\ map agent_job (agents w') = [job_B].
Proof. eexists. split; reflexivity. Qed.

(** A job of an exclusive type is held back while an agent runs: with
    one agent live, the tick pulls B, leaves it in [j] and launches
    nothing. *)
Example exclusive_job_held_while_an_agent_runs :
  let busy := World [occupy "localhost" 1 localhost] [copyright; migrate]
                    [job_B] [] [Agent 2 "localhost" "copyright" job_A] [] 3 false in
  exists w',
    update_scheduler spec_collaborators idle busy
    = Some (Statics false (Some job_B) false, w',
            [Cnext_job (Some job_B); Cis_exclusive "migrate" true])
    /\ agents w' = agents busy.
Proof. eexists. split; reflexivity. Qed.

(** C2, on the failing input.  From the idle scheduler, jobs A
    (ordinary) and B (exclusive) arrive and one tick runs.  The tick
    launches A, pulls B, and launches B too, because the counts it
    tests were read before A was launched.  [lockout] is then set with
    two agents live, one of them of an ordinary type. *)
Theorem lockout_set_while_an_ordinary_agent_is_live :
  exists c,
    reachable (boot [localhost] [copyright; migrate]) c /\
    lockout (fst c) = true /\
    map agent_meta (agents (snd c)) = ["copyright"; "migrate"] /\
    ~ lockout_invariant c.
Proof.
  eexists. split.
  { eapply rtc_l; [apply (step_enqueue _ _ [job_A; job_B])|].
    eapply rtc_l; [eapply step_tick; reflexivity|]. apply rtc_refl. }
  split; [reflexivity|]. split; [reflexivity|].
  intros Hinv. destruct Hinv as [Hlen _]; [reflexivity|].
  simpl in Hlen. lia.
Qed.

(** C3, on the failing input.  One host with one slot, two ordinary
    jobs A and C queued.  The tick launches A on the host; for C
    [get_host(1)] returns NULL, and the tick passes that NULL to
    [agent_init], goes on to call [next_job] again, and leaves C claimed
    instead of PENDING. *)
Theorem job_without_host_is_not_released :
  exists s' w',
    update_scheduler spec_collaborators idle (queued [one_slot] [job_A; job_C])
    = Some (s', w',
            [Cnext_job (Some job_A); Cis_exclusive "copyright" false;
             Cagent_init (Some "localhost") job_A 0;
             Cnext_job (Some job_C); Cis_exclusive "copyright" false;
             Cagent_init None job_C 0;
             Cnext_job None])
    /\ pending w' = [] /\ claimed w' = [job_C]
    /\ map agent_job (agents w') = [job_A].
Proof. do 2 eexists. repeat split; reflexivity. Qed.

End PolicyRuns.

(** ** Part XIV.  Properties of the process lock *)

Section LockFacts.

Import Lock.

Lemma digit_cases d :
  0 <= d <= 9 ->
  d = 0 \/ d = 1 \/ d = 2 \/ d = 3 \/ d = 4 \/ d = 5 \/ d = 6 \/ d = 7 \/
  d = 8 \/ d = 9.
Proof. lia. Qed.

Ltac each_digit d H :=
  destruct (digit_cases d H) as [->|[->|[->|[->|[->|[->|[->|[->|[->| ->]]]]]]]]].

Lemma digit_value_char d : 0 <= d <= 9 -> digit_value (digit_char d) = Some d.
Proof. intros H. each_digit d H; reflexivity. Qed.

(** A decimal digit is not a blank and not a sign: [atoi] starts
    reading the number at it. *)
Lemma atoi_at_digit d l :
  0 <= d <= 9 ->
  atoi (digit_char d :: l)
  = to_int (Z.min LONG_MAX (atoi_digits 0 (digit_char d :: l))).
Proof. intros H. each_digit d H; reflexivity. Qed.

Lemma dec_digits_length k n : length (dec_digits k n) = k.
Proof.
  revert n. induction k as [|k IH]; intros n; simpl; [reflexivity|].
  rewrite length_app, IH. simpl. lia.
Qed.

Lemma dec_digits_head k n :
  exists l, dec_digits (S k) n = digit_char (n / 10 ^ Z.of_nat k mod 10) :: l.
Proof.
  revert n. induction k as [|k IH]; intros n.
  - exists []. simpl. by rewrite Z.div_1_r.
  - destruct (IH (n / 10)) as [l Hl].
    change (dec_digits (S (S k)) n)
      with (dec_digits (S k) (n / 10) ++ [digit_char (n mod 10)]).
    rewrite Hl. eexists. simpl. f_equal. f_equal. f_equal.
    rewrite Z.div_div by lia. f_equal.
    rewrite Nat2Z.inj_succ, Z.pow_succ_r by lia. reflexivity.
Qed.

(** Reading back the digits [dec_digits] wrote. *)
Lemma atoi_digits_dec k n acc rest :
  atoi_digits acc (dec_digits k n ++ rest)
  = atoi_digits (acc * 10 ^ Z.of_nat k + n mod 10 ^ Z.of_nat k) rest.
Proof.
  revert n acc rest. induction k as [|k IH]; intros n acc rest.
  - simpl. rewrite Z.mod_1_r. f_equal. lia.
  - change (dec_digits (S k) n) with (dec_digits k (n / 10) ++ [digit_char (n mod 10)]).
    rewrite <- app_assoc, IH. simpl.
    rewrite digit_value_char by (pose proof (Z.mod_pos_bound n 10); lia). f_equal.
    rewrite Nat2Z.inj_succ, Z.pow_succ_r by lia.
    rewrite (Z.rem_mul_r n 10 (10 ^ Z.of_nat k)) by lia. lia.
Qed.

Lemma to_int_small n : 0 <= n < 10 ^ 9 -> to_int n = n.
Proof.
  intros H. unfold to_int.
  rewrite Z.mod_small; [lia|]. change (10 ^ 9) with 1000000000 in H.
  change (2 ^ 31) with 2147483648. change (2 ^ 32) with 4294967296. lia.
Qed.

(** [atoi] reads nine digits and the NUL back as the number. *)
Lemma atoi_dec_digits n :
  0 <= n < 10 ^ 9 -> atoi (read_buf (dec_digits 9 n ++ [NUL]) 10) = n.
Proof.
  intros [Hlo Hhi].
  assert (Hread : read_buf (dec_digits 9 n ++ [NUL]) 10 = dec_digits 9 n ++ [NUL])
    by reflexivity.
  rewrite Hread. destruct (dec_digits_head 8 n) as [l Hl].
  rewrite Hl. simpl app.
  rewrite atoi_at_digit
    by (pose proof (Z.mod_pos_bound (n / 10 ^ Z.of_nat 8) 10); lia).
  change (digit_char (n / 10 ^ Z.of_nat 8 mod 10) :: l ++ [NUL])
    with ((digit_char (n / 10 ^ Z.of_nat 8 mod 10) :: l) ++ [NUL]).
  rewrite <- Hl, atoi_digits_dec. simpl atoi_digits.
  change (Z.of_nat 9) with 9. rewrite Z.mod_small by lia.
  rewrite Z.min_r by (unfold LONG_MAX; lia).
  apply to_int_small. lia.
Qed.

(** [atoi] of what [sprintf] wrote is the number written. *)
Lemma atoi_sprintf_pid n buf :
  sprintf_pid n = Some buf ->
  buf = dec_digits 9 n ++ [NUL] /\ 0 <= n < 10 ^ 9 /\ atoi (read_buf buf 10) = n.
Proof.
  unfold sprintf_pid.
  destruct (_ && _) eqn:Hrange; [|discriminate]. intros Hbuf.
  apply andb_true_iff in Hrange as [Hlo%Z.leb_le Hhi%Z.ltb_lt].
  assert (buf = dec_digits 9 n ++ [NUL]) as -> by congruence.
  split; [reflexivity|]. split; [lia|]. apply atoi_dec_digits. lia.
Qed.

(** The system after a [shm_unlink] of the object it has. *)
Definition unlinked (o : os) : os :=
  if unlink_fails o then o else set_shm None o.

(** [get_locked_pid] case by case. *)
Lemma get_locked_pid_run o :
  get_locked_pid o =
  match shm o with
  | None => Ret 0 o
  | Some content =>
      let pid := atoi (read_buf content 10) in
      if pid <? 2 then Ret 0 (unlinked o)
      else if bool_decide (pid ∈ live o) then Ret pid o
      else Ret 0 (unlinked o)
  end.
Proof.
  cbv [get_locked_pid bind get ret unlock_scheduler shm_unlink kill shm unlinked].
  destruct (obj o) as [|content|] eqn:Hobj; [reflexivity| |reflexivity]. cbv zeta.
  destruct (_ <? 2); [rewrite Hobj; by destruct (unlink_fails o)|].
  destruct (bool_decide _); simpl; [reflexivity|].
  rewrite Hobj. by destruct (unlink_fails o).
Qed.

(** An object that cannot be opened is not read and is in the way of a
    new one. *)
Lemma lock_scheduler_denied o : obj o = Denied -> lock_scheduler o = Ret (-1) o.
Proof.
  intros Hobj. unfold lock_scheduler, bind. rewrite get_locked_pid_run.
  unfold shm. rewrite Hobj. change (negb (0 =? 0)) with false. cbv beta iota.
  unfold shm_create. by rewrite Hobj.
Qed.

(** [lock_scheduler] when no lock is present. *)
Lemma lock_scheduler_run o :
  obj o = Absent ->
  lock_scheduler o =
  if create_fails o then Ret (-1) o
  else match sprintf_pid (self o) with
       | None => Undefined (set_shm (Some []) o)
       | Some buf =>
           if write_fails o then Ret (-1) (set_shm (Some []) o)
           else Ret 0 (set_shm (Some buf) o)
       end.
Proof.
  intros Hobj. unfold lock_scheduler, bind. rewrite get_locked_pid_run.
  unfold shm at 1. rewrite Hobj.
  change (negb (0 =? 0)) with false. cbv beta iota.
  unfold shm_create. rewrite Hobj.
  destruct (create_fails o) eqn:Hcreate; [reflexivity|].
  change (3 =? -1) with false. cbv beta iota. unfold get. cbv beta iota.
  change (self (set_shm (Some []) o)) with (self o).
  destruct (sprintf_pid (self o)) as [buf|] eqn:Hbuf; [|reflexivity].
  unfold write_buf. change (write_fails (set_shm (Some []) o)) with (write_fails o).
  destruct (write_fails o); [reflexivity|].
  apply atoi_sprintf_pid in Hbuf as (-> & _ & _).
  rewrite length_app, dec_digits_length. reflexivity.
Qed.

(** The round trip as the specification words it: after a successful
    [lock_scheduler] with no lock before, the object holds the caller's
    pid as nine zero-padded digits, and [get_locked_pid] returns that
    pid while the caller is alive. *)
Definition lock_round_trip (o : os) : Prop :=
  forall o1,
    shm o = None -> self o ∈ live o ->
    lock_scheduler o = Ret 0 o1 ->
    shm o1 = Some (dec_digits 9 (self o) ++ [NUL]) /\
    exists o2, get_locked_pid o1 = Ret (self o) o2.

(** C8, counterexample.  The scheduler running as process 1 takes the
    lock, and [get_locked_pid] then answers 0, not 1: it rejects every
    lock whose pid is below 2 and removes it. *)
Lemma lock_of_pid_1_is_not_read_back : ~ lock_round_trip Machine.unlocked_init.
Proof.
  intros Hclaim.
  destruct (Hclaim (Os (Holds (dec_digits 9 1 ++ [NUL])) [1] 1 false false false [])
              eq_refl) as [_ [o2 Hread]]; [by left|reflexivity|].
  discriminate Hread.
Qed.

(** C8 (as amended).  When [lock_scheduler] runs with no lock present
    in a live process whose pid is at least 2 and returns 0, the object
    holds ten bytes, the pid as nine decimal digits padded with zeros
    and a NUL, and [get_locked_pid] then returns exactly that pid and
    leaves the lock in place. *)
Theorem lock_round_trip_from_pid_2 o o1 :
  shm o = None -> self o ∈ live o -> 2 <= self o ->
  lock_scheduler o = Ret 0 o1 ->
  shm o1 = Some (dec_digits 9 (self o) ++ [NUL]) /\
  length (dec_digits 9 (self o)) = 9%nat /\
  get_locked_pid o1 = Ret (self o) o1.
Proof.
  intros Hshm Hlive Hpid.
  destruct (obj o) as [|content|] eqn:Hobj;
    [|by unfold shm in Hshm; rewrite Hobj in Hshm
     |by rewrite lock_scheduler_denied].
  rewrite lock_scheduler_run by assumption.
  destruct (create_fails o); [discriminate|].
  destruct (sprintf_pid (self o)) as [buf|] eqn:Hbuf; [|discriminate].
  apply atoi_sprintf_pid in Hbuf as (-> & Hrange & Hatoi).
  destruct (write_fails o); [discriminate|].
  intros Hret.
  assert (o1 = set_shm (Some (dec_digits 9 (self o) ++ [NUL])) o) as ->
    by congruence.
  split; [reflexivity|]. split; [apply dec_digits_length|].
  rewrite get_locked_pid_run.
  change (shm (set_shm ?c o)) with c. cbv zeta beta iota. rewrite Hatoi.
  destruct (Z.ltb_spec (self o) 2) as [|_]; [lia|].
  change (live (set_shm ?c o)) with (live o).
  by rewrite bool_decide_eq_true_2 by assumption.
Qed.

(** C8, witness: the round trip of pid 1234. *)
Lemma lock_round_trip_of_1234 :
  shm Machine.locked = Some (dec_digits 9 1234 ++ [NUL]) /\
  length (dec_digits 9 1234) = 9%nat /\
  get_locked_pid Machine.locked = Ret 1234 Machine.locked.
Proof.
  apply (lock_round_trip_from_pid_2 Machine.unlocked Machine.locked);
    [reflexivity | by left | simpl; lia | reflexivity].
Defined.

End LockFacts.

(** ** Part XV.  Properties of the privilege drop *)

Section PrivilegeFacts.

Import Privilege.

(** A missing group is not caught: the test for it has an empty body,
    and the next statement reads [grp->gr_gid] through the NULL. *)
Lemma set_usr_grp_missing_group s :
  group_gid s = None -> set_usr_grp s = Undefined s.
Proof.
  intros Hgrp. cbv [set_usr_grp bind get when ret deref undefined].
  rewrite Hgrp. reflexivity.
Qed.

(** The failures [set_usr_grp] does catch: when the group exists and
    [setgid], [setegid], the user lookup, [setuid] or [seteuid] fails,
    the process exits with code -1. *)
Lemma set_usr_grp_exits_when_ids_refused s g :
  group_gid s = Some g ->
  may_setgid s = false \/ may_setegid s = false \/ user_uid s = None \/
  may_setuid s = false \/ may_seteuid s = false ->
  exists s', set_usr_grp s = Exit (-1) s'.
Proof.
  intros Hgrp Hfail.
  destruct s as [grp pwd msg mg meg mu meu cg cu gs gi egi ui eui ev err].
  simpl in Hgrp, Hfail. subst grp.
  destruct msg, mg, meg, pwd as [u|], mu, meu;
    try (eexists; lazy; reflexivity);
    exfalso; destruct Hfail as [?|[?|[?|[?|?]]]]; congruence.
Qed.

(** C9, on the failing inputs.  When the project group does not exist,
    [set_usr_grp] reads through a NULL pointer instead of exiting with a
    negative code.  When [setgroups] is refused (the scheduler started
    by the project user), its result is ignored and [set_usr_grp]
    returns normally. *)
Theorem privilege_drop_fails_without_exit :
  set_usr_grp Machine.no_group = Undefined Machine.no_group /\
  set_usr_grp Machine.as_project_user = Ret tt Machine.as_project_user.
Proof. split; reflexivity. Qed.

End PrivilegeFacts.

(** ** Part XVI.  Properties of the signal handlers *)

Section SignalFacts.

Import Events Signals.

(** The array [a] after the values [vs] were stored from slot [i] on. *)
Definition filled (a : list Z) (i : nat) (vs : list Z) : list Z :=
  take i a ++ vs ++ drop (i + length vs) a.

(** The [waitpid] calls of a handler that finds [zs] dead: one per dead
    child, and the one that finds no more. *)
Definition wait_calls (zs : list positive) (last : Z) : list wait_call :=
  ((fun z => WaitCall (-1) WNOHANG (Z.pos z)) <$> zs)
  ++ [WaitCall (-1) WNOHANG last].

Definition no_more (s : sched) : Z := if children s then 0 else -1.

(** The state the reaping loop leaves. *)
Definition reaped (s : sched) : sched :=
  Sched (events s) (alarm_in s) (log s) [] (children s) (agents s)
        (waits s ++ wait_calls (zombies s) (no_more s)) (reg s).

(** The batch [chld_sig] builds: the dead children's pids, then zeros
    up to [num_agents() + 1] slots. *)
Definition batch (s : sched) : list Z :=
  (Z.pos <$> zombies s)
  ++ replicate (Z.to_nat (agents s + 1) - length (zombies s)) 0.

Lemma filled_insert a i v vs :
  (i < length a)%nat -> filled (<[i:=v]> a) (S i) vs = filled a i (v :: vs).
Proof.
  intros Hi. unfold filled.
  rewrite (take_S_r _ i v) by (by apply list_lookup_insert_eq).
  rewrite take_insert_ge by lia. rewrite drop_insert_lt by lia.
  rewrite <- app_assoc. simpl. by rewrite Nat.add_succ_r.
Qed.

Lemma reap_run zs : forall fuel a idx s,
  zombies s = zs -> (length zs < fuel)%nat -> (idx + length zs <= length a)%nat ->
  reap fuel a (Z.of_nat idx) s
  = Ret (Some (filled a idx (Z.pos <$> zs), Z.of_nat (idx + length zs))) (reaped s).
Proof.
  induction zs as [|z zs IH]; intros fuel a idx s Hz Hfuel Hroom;
    (destruct fuel as [|fuel]; [simpl in Hfuel; lia|]).
  - cbn [reap]. unfold bind at 1. unfold waitpid_nohang. rewrite Hz.
    unfold reaped, wait_calls, no_more. rewrite Hz.
    destruct (children s); cbn [Z.ltb Z.compare ret map app length];
      unfold filled; change (Z.pos <$> []) with (@nil Z); cbn [app length];
      rewrite Nat.add_0_r, take_drop; reflexivity.
  - cbn [reap]. unfold bind at 1. unfold waitpid_nohang. rewrite Hz.
    change (0 <? Z.pos z) with true. cbv iota.
    unfold bind at 1. unfold store. simpl in Hroom.
    rewrite bool_decide_eq_true_2 by lia. unfold ret at 1.
    rewrite Nat2Z.id.
    replace (Z.of_nat idx + 1) with (Z.of_nat (S idx)) by lia.
    rewrite (IH fuel (<[idx:=Z.pos z]> a) (S idx)); cycle 1.
    { reflexivity. } { simpl in Hfuel. lia. } { rewrite length_insert. lia. }
    rewrite filled_insert by lia. f_equal.
    + do 3 f_equal. simpl. lia.
    + unfold reaped, wait_calls, no_more. cbn [events alarm_in log zombies children agents waits reg].
      rewrite Hz. simpl. by rewrite <- app_assoc.
Qed.

(** The loop of [chld_sig] is never cut off: it ends by itself within
    one turn more than there are dead children. *)
Lemma reap_not_cut_off zs : forall fuel a idx s s',
  zombies s = zs -> (length zs < fuel)%nat -> reap fuel a idx s <> Ret None s'.
Proof.
  induction zs as [|z zs IH]; intros fuel a idx s s' Hz Hfuel;
    (destruct fuel as [|fuel]; [simpl in Hfuel; lia|]);
    cbn [reap]; unfold bind at 1; unfold waitpid_nohang; rewrite Hz.
  - by destruct (children s).
  - change (0 <? Z.pos z) with true. cbv iota. unfold bind at 1, store.
    destruct (bool_decide _); [|done]. unfold ret at 1.
    apply IH; [reflexivity|]. simpl in Hfuel. lia.
Qed.

(** [chld_sig] when the dead children are no more than [num_agents()]. *)
Lemma chld_sig_run signo s :
  Z.of_nat (length (zombies s)) <= agents s ->
  chld_sig signo s
  = event_signal agent_death_event (Pids (batch s)) (reaped s).
Proof.
  intros Hroom. unfold chld_sig, bind at 1, num_agents.
  unfold bind at 1, get. unfold bind.
  rewrite (reap_run (zombies s) _ _ 0%nat); [| reflexivity | lia |].
  - unfold filled, g_new0, batch. simpl. rewrite drop_replicate, length_fmap.
    reflexivity.
  - unfold g_new0. rewrite length_replicate. lia.
Qed.

(** The claim on [chld_sig] as the specification words it: the handler
    returns, has put one AGENT_DEATH event at the end of the queue, and
    the batch of that event holds the pid of every child that was dead. *)
Definition reaps_into_one_event (s : sched) : Prop :=
  exists s' pid_list,
    chld_sig SIGCHLD s = Ret tt s' /\
    events s' = events s ++ [(agent_death_event, Pids pid_list)] /\
    forall z, z ∈ zombies s -> Z.pos z ∈ pid_list.

(** C7, on the failing input.  Two children are dead and
    [num_agents()] is 0: the array of the batch has one slot, the loop
    stores without a bound, and the second pid is stored past the array.
    The handler has signalled no event by then, and what the
    specification says of it does not hold: it does not return with the
    pids of all the dead children in one batch. *)
Theorem second_pid_stored_past_the_batch :
  (exists s',
     chld_sig SIGCHLD Machine.two_dead_none_counted = Undefined s' /\
     events s' = []) /\
  ~ reaps_into_one_event Machine.two_dead_none_counted.
Proof.
  split; [eexists; split; [lazy; reflexivity|reflexivity]|].
  intros (s' & pid_list & Hrun & _). discriminate Hrun.
Qed.

(** Within the array the handler does what the specification says.
    When the dead children are no more than [num_agents()], it calls
    [waitpid(-1, , WNOHANG)] once for each of them and once more, which
    is the call that returns 0 or -1 and ends the loop; no dead child is
    left; exactly one event is added to the queue, an AGENT_DEATH event,
    and its batch starts with the pids of all the children reaped, in
    the order they were reaped. *)
Lemma chld_sig_reaps_all_into_one_event s :
  Z.of_nat (length (zombies s)) <= agents s ->
  exists s' pid_list last_result,
    chld_sig SIGCHLD s = Ret tt s' /\
    waits s' = waits s ++ wait_calls (zombies s) last_result /\
    last_result <= 0 /\
    zombies s' = [] /\
    events s' = events s ++ [(agent_death_event, Pids pid_list)] /\
    take (length (zombies s)) pid_list = (Z.pos <$> zombies s).
Proof.
  intros Hroom. rewrite chld_sig_run by assumption.
  eexists _, (batch s), (no_more s). split; [reflexivity|].
  split; [reflexivity|]. split; [unfold no_more; destruct (children s); lia|].
  split; [reflexivity|]. split; [reflexivity|].
  unfold batch. rewrite take_app_length'; [reflexivity|]. by rewrite length_fmap.
Qed.

(** Two dead children, two agents counted. *)
Lemma two_dead_children_one_event :
  exists s' pid_list last_result,
    chld_sig SIGCHLD Machine.two_dead = Ret tt s' /\
    waits s' = waits Machine.two_dead
               ++ wait_calls (zombies Machine.two_dead) last_result /\
    last_result <= 0 /\
    zombies s' = [] /\
    events s' = events Machine.two_dead ++ [(agent_death_event, Pids pid_list)] /\
    take (length (zombies Machine.two_dead)) pid_list
    = (Z.pos <$> zombies Machine.two_dead).
Proof.
  apply (chld_sig_reaps_all_into_one_event Machine.two_dead). simpl. lia.
Defined.

(** C10.  When the dead children are no more than [num_agents()], the
    handler returns without a store outside the array: the array has
    [num_agents() + 1] slots, the pid of the [i]-th dead child is stored
    in slot [i], which is one of them, and the slot after the last pid
    stored is inside the array and holds 0.  That array is the batch of
    the event signalled last. *)
Theorem chld_sig_batch_in_bounds_and_terminated s :
  Z.of_nat (length (zombies s)) <= agents s ->
  exists s' pid_list,
    chld_sig SIGCHLD s = Ret tt s' /\
    last (events s') = Some (agent_death_event, Pids pid_list) /\
    Z.of_nat (length pid_list) = agents s + 1 /\
    (forall (i : nat) z,
       zombies s !! i = Some z ->
       (i < length pid_list)%nat /\ pid_list !! i = Some (Z.pos z)) /\
    (length (zombies s) < length pid_list)%nat /\
    pid_list !! length (zombies s) = Some 0.
Proof.
  intros Hroom. rewrite chld_sig_run by assumption.
  assert (Hlen : length (batch s) = Z.to_nat (agents s + 1)).
  { unfold batch. rewrite length_app, length_fmap, length_replicate. lia. }
  eexists _, (batch s). split; [reflexivity|].
  split; [cbn [events]; apply last_snoc|]. split; [lia|]. split; [|split].
  - intros i z Hi. pose proof (lookup_lt_Some _ _ _ Hi) as Hlt.
    split; [lia|]. unfold batch.
    rewrite lookup_app_l by (by rewrite length_fmap).
    by rewrite list_lookup_fmap, Hi.
  - lia.
  - unfold batch. rewrite lookup_app_r by (by rewrite length_fmap).
    rewrite length_fmap, Nat.sub_diag. apply lookup_replicate_2. lia.
Qed.

(** C10, witness: two dead children, two agents counted; three slots,
    the third 0. *)
Lemma two_dead_children_batch :
  exists s' pid_list,
    chld_sig SIGCHLD Machine.two_dead = Ret tt s' /\
    last (events s') = Some (agent_death_event, Pids pid_list) /\
    Z.of_nat (length pid_list) = agents Machine.two_dead + 1 /\
    (forall (i : nat) z,
       zombies Machine.two_dead !! i = Some z ->
       (i < length pid_list)%nat /\ pid_list !! i = Some (Z.pos z)) /\
    (length (zombies Machine.two_dead) < length pid_list)%nat /\
    pid_list !! length (zombies Machine.two_dead) = Some 0.
Proof.
  apply (chld_sig_batch_in_bounds_and_terminated Machine.two_dead). simpl. lia.
Defined.

(** The batch of that run. *)
Example two_dead_children_batch_value :
  exists s', chld_sig SIGCHLD Machine.two_dead = Ret tt s' /\
             events s' = [(agent_death_event, Pids [41; 42; 0])].
Proof. eexists. split; [lazy; reflexivity|reflexivity]. Qed.

(** [load_config] runs on the registries only: it leaves the event
    queue as it is. *)
Lemma load_config_keeps_events s :
  events (final (load_config NULL s)) = events s.
Proof.
  unfold load_config, on. destruct (Config.load_config NULL (reg s)); reflexivity.
Qed.

(** C6, on the failing input.  On SIGHUP the handler is [load_config]
    itself: it puts no event in the queue, for any state; and on the
    scheduler at rest it has cleared and reloaded the host and
    meta-agent registries by the time it returns. *)
Theorem sighup_reloads_inside_the_handler :
  (forall s, prnt_sig SIGHUP s = load_config NULL s) /\
  (forall s, events (final (prnt_sig SIGHUP s)) = events s) /\
  exists s',
    prnt_sig SIGHUP Machine.at_rest = Ret tt s' /\
    events s' = [] /\
    Config.host_list (reg Machine.at_rest) = [] /\
    Config.h_name <$> Config.host_list (reg s') = ["localhost"] /\
    Config.m_name <$> Config.meta_list (reg s') = ["copyright"].
Proof.
  split; [reflexivity|]. split; [intros s; apply load_config_keeps_events|].
  eexists. split; [lazy; reflexivity|]. repeat split; reflexivity.
Qed.

(** The sibling signals do what the specification says of SIGHUP: SIGTERM only
    logs and puts [scheduler_close_event] in the queue. *)
Example sigterm_only_enqueues :
  exists s',
    prnt_sig SIGTERM Machine.at_rest = Ret tt s' /\
    events s' = [(scheduler_close_event, NULL)] /\
    reg s' = reg Machine.at_rest.
Proof. eexists. split; [lazy; reflexivity|]. repeat split; reflexivity. Qed.

End SignalFacts.

(** ** Part XVII.  Properties of the start-up *)

Section StartupFacts.

Import Events Startup.

(** The test of [main] on the lock does not fire when the lock names a
    live process: [lock_scheduler] returns that pid, the first operand
    of [&&] is false, and [main] goes on, whoever owns the lock. *)
Lemma lock_error_false_when_owner_live p pid :
  Lock.get_locked_pid (os p) = Ret pid (os p) -> 0 < pid ->
  lock_error p = Ret false p.
Proof.
  intros Hlocked Hpid. unfold lock_error, bind, on_os, on.
  unfold Lock.lock_scheduler, bind. rewrite Hlocked.
  destruct (Z.eqb_spec pid 0) as [|_]; [lia|]. cbn [negb]. unfold ret.
  destruct (Z.leb_spec pid 0) as [|_]; [lia|]. by destruct p.
Qed.

(** C4, on the failing input.  Process 5678 starts while the live
    process 1234 holds the lock.  [get_locked_pid] reports 1234 to it,
    and [main] nevertheless installs the six signal handlers, enters the
    event loop and returns 0 at the end; the lock still names 1234. *)
Theorem second_instance_enters_the_event_loop :
  Lock.get_locked_pid (os Machine.second_instance)
  = Ret 1234 (os Machine.second_instance) /\
  Lock.self (os Machine.second_instance) = 5678 /\
  exists p',
    main Machine.no_flags Machine.second_instance = Ret 0 p' /\
    handlers p' = [(Signals.SIGCHLD, chld_sig); (Signals.SIGALRM, prnt_sig);
                   (Signals.SIGTERM, prnt_sig); (Signals.SIGQUIT, prnt_sig);
                   (Signals.SIGINT, prnt_sig); (Signals.SIGHUP, prnt_sig)] /\
    "event_loop_enter" ∈ calls p' /\
    Lock.shm (os p') = Some Machine.lock_1234.
Proof.
  split; [reflexivity|]. split; [reflexivity|].
  eexists. split; [lazy; reflexivity|]. split; [reflexivity|].
  split; [|reflexivity]. simpl. repeat constructor.
Qed.

(** The first instance, for comparison: with no lock present the same
    start-up takes the lock and enters the loop. *)
Example first_instance_takes_the_lock :
  exists p',
    main Machine.no_flags
      (Proc Machine.as_root Machine.unlocked Machine.at_rest [] [] false 0 0 false)
    = Ret 0 p' /\
    Lock.shm (os p') = Some Machine.lock_1234 /\
    "event_loop_enter" ∈ calls p'.
Proof.
  eexists. split; [lazy; reflexivity|]. split; [reflexivity|].
  simpl. repeat constructor.
Qed.

(** [set_usr_grp] is the first thing [main] does after parsing its
    options: when it does not return, no collaborator has been called
    and no handler installed. *)
Example no_group_stops_main_before_any_call :
  exists p',
    main Machine.no_flags
      (Proc Machine.no_group Machine.unlocked Machine.at_rest [] [] false 0 0 false)
    = Undefined p' /\
    calls p' = [] /\ handlers p' = [].
Proof. eexists. split; [lazy; reflexivity|]. split; reflexivity. Qed.

End StartupFacts.

(** ** Part XVIII.  More on the policy: the pull loop, [lockout] and
    [closing] *)

Section PolicyMore.

Import Policy.

Context {job host world : Type}.
Variable C : collaborators job host world.

Lemma launch_calls_cons jb h launches :
  launch_calls C ((jb, h) :: launches)
  = Cnext_job (Some jb) :: Cis_exclusive (job_type C jb) false
      :: Cagent_init h jb 0 :: launch_calls C launches.
Proof. reflexivity. Qed.

(** 1 when the loop ended on a job, 0 when it ended on NULL. *)
Definition pulled_last (r : option job) : nat :=
  match r with Some _ => 1 | None => 0 end.

(** The turns of the pull loop that launch.  [pulls w launches w']:
    from the world [w], [next_job] returned the jobs of [launches] in
    turn, none of them of an exclusive type, each was passed to
    [agent_init] with the host [get_host(1)] had just returned, and the
    last launch left the world [w']. *)
Inductive pulls : world -> list (job * option host) -> world -> Prop :=
  | pulls_nil w : pulls w [] w
  | pulls_cons w jb w1 launches w' :
      next_job C w = (Some jb, w1) ->
      is_exclusive C (job_type C jb) w1 = false ->
      pulls (agent_init C (get_host C 1 w1) jb 0 w1) launches w' ->
      pulls w ((jb, get_host C 1 w1) :: launches) w'.

(** What one run of the pull loop does, whatever the fuel it ran on. *)
Lemma pull_jobs_shape fuel w r w' tr :
  pull_jobs C fuel w = Some (r, w', tr) ->
  exists launches w_last,
    tr = launch_calls C launches ++ pull_end C r /\
    pulls w launches w_last /\
    next_job C w_last = (r, w') /\
    (length launches + pulled_last r <= backlog C w)%nat /\
    (forall e, r = Some e -> is_exclusive C (job_type C e) w' = true).
Proof.
  revert w r w' tr. induction fuel as [|fuel IH]; intros w r w' tr; [discriminate|].
  simpl. destruct (next_job C w) as [[jb|] w1] eqn:Hnext.
  - apply next_job_backlog in Hnext as Hlt.
    destruct (is_exclusive C (job_type C jb) w1) eqn:Hex.
    + intros [= <- <- <-]. exists [], w. repeat split.
      * constructor.
      * assumption.
      * simpl. lia.
      * by intros e [= <-].
    + destruct (pull_jobs C fuel _) as [[[r0 w0] tr0]|] eqn:Hrec; [|discriminate].
      intros [= <- <- <-].
      destruct (IH _ _ _ _ Hrec) as (ls & wl & -> & Hpulls & Hlast & Hlen & Hexcl).
      pose proof (agent_init_backlog C (get_host C 1 w1) jb 0 w1) as Hle.
      exists ((jb, get_host C 1 w1) :: ls), wl. repeat split; try assumption.
      * by econstructor.
      * simpl. lia.
  - intros [= <- <- <-]. exists [], w. repeat split.
    + constructor.
    + assumption.
    + simpl. lia.
    + discriminate.
Qed.

(** X1.  The pull loop of the tick always ends.  It passes every job
    [next_job] returns to [agent_init], with the host [get_host(1)]
    returned for it in the world [next_job] left, and pulls again from
    the world [agent_init] left; until [next_job] returns NULL or a job
    of an exclusive type, which is the value [j] is left with and which
    the loop does not launch.  The jobs it pulls are no more than the
    queue's backlog. *)
Theorem pull_loop_launches_until_exclusive_or_empty w :
  exists r w' launches w_last,
    pull_jobs C (S (backlog C w)) w
    = Some (r, w', launch_calls C launches ++ pull_end C r) /\
    pulls w launches w_last /\
    next_job C w_last = (r, w') /\
    (length launches + pulled_last r <= backlog C w)%nat /\
    (forall e, r = Some e -> is_exclusive C (job_type C e) w' = true).
Proof.
  destruct (pull_jobs_enough_fuel C (S (backlog C w)) w) as [[[r w'] tr] Hpull];
    [lia|].
  destruct (pull_jobs_shape _ _ _ _ _ Hpull)
    as (ls & wl & -> & Hpulls & Hlast & Hlen & Hexcl).
  by exists r, w', ls, wl.
Qed.

(** X2.  How a tick changes the flags.  It never changes [closing].  It
    clears [lockout] only when both counts were zero on entry.  It sets
    [lockout] only together with a launch, which is then its last call,
    and with [j] cleared.  And when it leaves [lockout] set, [j] is NULL,
    provided that was so on entry. *)
Theorem tick_changes_lockout_only_at_drain_and_launch s w s' w' tr :
  update_scheduler C s w = Some (s', w', tr) ->
  closing s' = closing s /\
  (lockout s = true -> lockout s' = false -> drained C w = true) /\
  (lockout s = false -> lockout s' = true ->
   drained C w = true /\ j s' = None /\
   exists pre h e, tr = pre ++ [Cagent_init h e 0]) /\
  ((lockout s = true -> j s = None) -> lockout s' = true -> j s' = None).
Proof.
  intros Hrun. unfold update_scheduler in Hrun.
  remember (S (backlog C w)) as fuel eqn:Hfuel. clear Hfuel.
  rewrite update_scheduler_fuel_unfold in Hrun. cbv zeta in Hrun.
  destruct (closing s && drained C w).
  { injection Hrun as <- <- <-. repeat split; try congruence; auto. }
  assert (Hlast : forall (tr0 : list (call job host)) h e,
            exists pre h' e', tr0 ++ [Cagent_init h e 0] = pre ++ [Cagent_init h' e' 0])
    by (intros tr0 h e; by exists tr0, h, e).
  destruct (j s) as [e0|] eqn:Hj.
  - destruct (drained C w) eqn:Hdr; injection Hrun as <- <- <-; simpl.
    + repeat split; auto. apply (Hlast []).
    + rewrite andb_false_r. repeat split; try congruence.
      intros Hinv Hl. specialize (Hinv Hl). discriminate.
  - destruct (lockout s) eqn:Hlock; simpl in Hrun.
    + destruct (drained C w) eqn:Hdr; simpl in Hrun.
      * destruct (pull_jobs C fuel w) as [[[[e|] w1] tr1]|]; [| |discriminate];
          injection Hrun as <- <- <-; simpl; repeat split; auto; congruence.
      * injection Hrun as <- <- <-. simpl. repeat split; congruence.
    + destruct (pull_jobs C fuel w) as [[[[e|] w1] tr1]|]; [| |discriminate].
      * destruct (drained C w) eqn:Hdr; injection Hrun as <- <- <-; simpl;
          repeat split; auto; congruence.
      * injection Hrun as <- <- <-. simpl. repeat split; congruence.
Qed.

(** X3.  [closing] does not keep a tick from admitting work.  While an
    agent is live or a job active, the tick with [closing] set pulls and
    launches exactly what it would with [closing] clear, and leaves [j]
    and [lockout] the same. *)
Theorem closing_tick_admits_jobs_until_drained jb l w :
  drained C w = false ->
  exists s' w' tr,
    update_scheduler C (Statics false jb l) w = Some (s', w', tr) /\
    update_scheduler C (Statics true jb l) w
    = Some (Statics true (j s') (lockout s'), w', tr).
Proof.
  intros Hbusy.
  destruct (update_scheduler_returns C (Statics false jb l) w)
    as [[[s' w'] tr] Hrun].
  exists s', w', tr. split; [assumption|].
  unfold update_scheduler in *.
  remember (S (backlog C w)) as fuel eqn:Hfuel. clear Hfuel.
  rewrite update_scheduler_fuel_unfold in *. cbv zeta in *.
  rewrite Hbusy in *. cbn [closing j lockout andb] in *.
  rewrite andb_false_r in *.
  destruct jb as [e0|].
  - by injection Hrun as <- <- <-.
  - destruct (if negb l then pull_jobs C fuel w else Some (None, w, []))
      as [[[[e|] w1] tr1]|]; [| |discriminate];
      by injection Hrun as <- <- <-.
Qed.

End PolicyMore.

(** ** Part XIX.  More on the process lock: owners, stale locks and
    [kill_scheduler] *)

Section LockMore.

Import Lock.

Lemma sprintf_pid_in_range n :
  0 <= n < 10 ^ 9 -> sprintf_pid n = Some (dec_digits 9 n ++ [NUL]).
Proof.
  intros [Hlo Hhi]. unfold sprintf_pid.
  destruct (Z.leb_spec 0 n); [|lia]. destruct (Z.ltb_spec n (10 ^ 9)); [|lia].
  reflexivity.
Qed.

(** The pid a lock object of contents [c] names. *)
Definition named_pid (c : list ascii) : Z := atoi (read_buf c 10).

(** [get_locked_pid] finds a usable lock: it names a pid from 2 on that
    is alive. *)
Lemma get_locked_pid_owner o c :
  shm o = Some c -> 2 <= named_pid c -> named_pid c ∈ live o ->
  get_locked_pid o = Ret (named_pid c) o.
Proof.
  intros Hshm Hpid Hlive. rewrite get_locked_pid_run, Hshm. cbv zeta.
  fold (named_pid c). destruct (Z.ltb_spec (named_pid c) 2); [lia|].
  by rewrite bool_decide_eq_true_2.
Qed.

(** [get_locked_pid] finds a lock that is of no use: it tries to remove
    it. *)
Lemma get_locked_pid_stale o c :
  shm o = Some c -> named_pid c < 2 \/ named_pid c ∉ live o ->
  get_locked_pid o = Ret 0 (unlinked o).
Proof.
  intros Hshm Hstale. rewrite get_locked_pid_run, Hshm. cbv zeta.
  fold (named_pid c). destruct (Z.ltb_spec (named_pid c) 2); [reflexivity|].
  destruct Hstale as [|Hdead]; [lia|]. by rewrite bool_decide_eq_false_2.
Qed.

(** A lock that is of use: it names a pid from 2 on that is alive. *)
Definition usable (o : os) (c : list ascii) : bool :=
  (2 <=? named_pid c) && bool_decide (named_pid c ∈ live o).








(** The system after SIGQUIT was sent to [pid]. *)
Definition quit_sent (pid : Z) (o : os) : os :=
  Os (obj o) (live o) (self o) (create_fails o) (write_fails o)
     (unlink_fails o) (sent o ++ [(pid, SIGQUIT)]).

(** [kill_scheduler] step by step. *)
Lemma kill_scheduler_run o :
  kill_scheduler o =
  match shm o with
  | None => Ret tt o
  | Some c =>
      if usable o c then Ret tt (unlinked (quit_sent (named_pid c) o))
      else Ret tt (unlinked o)
  end.
Proof.
  unfold kill_scheduler, bind. rewrite get_locked_pid_run.
  destruct (shm o) as [c|] eqn:Hshm; [|reflexivity]. cbv zeta.
  fold (named_pid c). unfold usable.
  destruct (Z.ltb_spec (named_pid c) 2) as [Hlow|Hpid].
  { destruct (Z.leb_spec 2 (named_pid c)); [lia|]. reflexivity. }
  destruct (Z.leb_spec 2 (named_pid c)); [|lia]. cbn [andb].
  destruct (bool_decide (named_pid c ∈ live o)) eqn:Hlive; [|reflexivity].
  destruct (Z.eqb_spec (named_pid c) 0); [lia|]. cbn [negb].
  unfold kill. rewrite Hlive. change (SIGQUIT =? 0) with false. cbv iota.
  change (0 =? -1) with false. cbv iota.
  unfold bind, unlock_scheduler, shm_unlink, unlinked, quit_sent.
  cbn [obj unlink_fails]. unfold shm in Hshm.
  destruct (obj o); try discriminate. by destruct (unlink_fails o).
Qed.


End LockMore.

(** ** Part XX.  More on the privilege drop: what a return and an exit
    of [set_usr_grp] mean *)

Section PrivilegeMore.

Import Events Privilege.

(** X8.  When [set_usr_grp] returns, the project group and user exist
    and the effective group and user id are theirs.  The real group id
    is the group's when the process held CAP_SETGID and is unchanged
    otherwise, and so for the real user id and CAP_SETUID.  The
    supplementary groups are the project group alone, or unchanged when
    [setgroups] was refused; no event was signalled and nothing was
    printed. *)
Theorem set_usr_grp_returns_with_project_ids s s' :
  set_usr_grp s = Ret tt s' ->
  exists g u,
    group_gid s = Some g /\ user_uid s = Some u /\
    egid s' = g /\ euid s' = u /\
    gid s' = (if cap_setgid s then g else gid s) /\
    uid s' = (if cap_setuid s then u else uid s) /\
    (groups s' = [g] \/ may_setgroups s = false /\ groups s' = groups s) /\
    events s' = events s /\ stderr s' = stderr s.
Proof.
  destruct s as [grp pwd msg mg meg mu meu cg cu gs gi egi ui eui ev err].
  destruct grp as [g|]; [|discriminate]. destruct pwd as [u|].
  - destruct msg, mg, meg, mu, meu; lazy; intros Hrun;
      try discriminate Hrun; injection Hrun as <-; exists g, u;
      repeat split; auto.
  - destruct msg, mg, meg; lazy; discriminate.
Qed.

(** X9.  Every exit of [set_usr_grp] is [exit(-1)], after a FATAL line
    on stderr.  Either setting the group failed, and then
    [database_update_event] was signalled once before the exit; or the
    group was set and the user is missing or could not be set, and then
    no event was signalled. *)
Theorem set_usr_grp_exit_code_and_cause s code s' :
  set_usr_grp s = Exit code s' ->
  code = -1 /\ stderr s' <> stderr s /\
  ((may_setgid s = false \/ may_setegid s = false) /\
   events s' = events s ++ [(database_update_event, NULL)]
   \/
   (may_setgid s = true /\ may_setegid s = true /\
    (user_uid s = None \/ may_setuid s = false \/ may_seteuid s = false) /\
    events s' = events s)).
Proof.
  assert (Hgrow : forall (l : list string) x y, (l ++ [x]) ++ [y] <> l).
  { intros l x y H. apply (f_equal length) in H. rewrite !length_app in H.
    simpl in H. lia. }
  assert (Hgrow1 : forall (l : list string) x, l ++ [x] <> l).
  { intros l x H. apply (f_equal length) in H. rewrite length_app in H.
    simpl in H. lia. }
  destruct s as [grp pwd msg mg meg mu meu cg cu gs gi egi ui eui ev err].
  destruct grp as [g|]; [|discriminate].
  destruct pwd as [u|], msg, mg, meg, mu, meu; lazy; intros Hrun;
    try discriminate Hrun; injection Hrun as <- <-;
    (split; [reflexivity|]);
    (split; [first [exact (Hgrow _ _ _) | exact (Hgrow1 _ _)]|]);
    first [ left; split; [auto|reflexivity]
          | right; repeat split; auto ].
Qed.

End PrivilegeMore.

(** ** Part XXI.  More on the signal handlers: the other signals, and
    the batch of [chld_sig] at and past its capacity *)

Section SignalMore.

Import Events Signals.

(** The events [prnt_sig] signals for a signal other than SIGHUP. *)
Definition signalled (signo : Z) : list event :=
  if signo =? SIGALRM
  then [(agent_update_event, NULL); (database_update_event, NULL)]
  else if (signo =? SIGTERM) || (signo =? SIGQUIT) || (signo =? SIGINT)
  then [(scheduler_close_event, NULL)]
  else [].

(** X10.  For every signal but SIGHUP, [prnt_sig] returns and leaves the
    registries and the children alone.  SIGALRM puts
    [agent_update_event] and then [database_update_event] in the queue
    and sets the alarm to CHECK_TIME; SIGTERM, SIGQUIT and SIGINT each put
    one [scheduler_close_event] in the queue and leave the alarm; any
    other signal changes nothing. *)
Theorem prnt_sig_only_enqueues signo s :
  signo <> SIGHUP ->
  exists s',
    prnt_sig signo s = Ret tt s' /\
    events s' = events s ++ signalled signo /\
    alarm_in s' = (if signo =? SIGALRM then Some CHECK_TIME else alarm_in s) /\
    reg s' = reg s /\ zombies s' = zombies s /\ waits s' = waits s /\
    (signalled signo = [] -> s' = s).
Proof.
  intros Hhup. unfold prnt_sig, signalled.
  destruct (signo =? SIGALRM) eqn:Halrm.
  { eexists. split; [reflexivity|].
    cbn [events alarm_in reg zombies waits]. rewrite <- app_assoc.
    repeat split. discriminate. }
  destruct (signo =? SIGTERM) eqn:Hterm.
  { eexists. split; [reflexivity|]. repeat split. discriminate. }
  destruct (signo =? SIGQUIT) eqn:Hquit.
  { eexists. split; [reflexivity|]. repeat split. discriminate. }
  destruct (signo =? SIGINT) eqn:Hint.
  { eexists. split; [reflexivity|]. repeat split. discriminate. }
  destruct (Z.eqb_spec signo SIGHUP) as [|_]; [contradiction|].
  exists s. cbn [orb]. rewrite app_nil_r. by repeat split.
Qed.

(** [chld_sig] when the dead children fit the array, the last slot
    included. *)
Lemma chld_sig_run_within signo s :
  Z.of_nat (length (zombies s)) <= agents s + 1 ->
  chld_sig signo s
  = event_signal agent_death_event (Pids (batch s)) (reaped s).
Proof.
  intros Hroom. unfold chld_sig, bind at 1, num_agents.
  unfold bind at 1, get. unfold bind.
  rewrite (reap_run (zombies s) _ _ 0%nat); [| reflexivity | lia |].
  - unfold filled, g_new0, batch. simpl. rewrite drop_replicate, length_fmap.
    reflexivity.
  - unfold g_new0. rewrite length_replicate. lia.
Qed.

(** X11.  With exactly [num_agents() + 1] dead children the handler
    still returns and signals one event, but every slot of the batch
    holds a pid: the batch is not terminated by a zero. *)
Theorem chld_sig_full_batch_has_no_terminator s :
  Z.of_nat (length (zombies s)) = agents s + 1 ->
  exists s',
    chld_sig SIGCHLD s = Ret tt s' /\
    events s' = events s ++ [(agent_death_event, Pids (Z.pos <$> zombies s))] /\
    zombies s' = [] /\
    Forall (fun pid => 0 < pid) (Z.pos <$> zombies s).
Proof.
  intros Hfull. rewrite chld_sig_run_within by lia.
  eexists. split; [reflexivity|]. cbn [events zombies reaped]. split; [|split].
  - unfold batch.
    replace (Z.to_nat (agents s + 1) - length (zombies s))%nat with 0%nat by lia.
    by rewrite app_nil_r.
  - reflexivity.
  - apply Forall_fmap, Forall_forall. intros z _. simpl. lia.
Qed.

(** The loop of [chld_sig] when the dead children do not fit what is
    left of the array. *)
Lemma reap_overflow zs : forall fuel a idx s,
  zombies s = zs -> (length zs < fuel)%nat ->
  (idx <= length a)%nat -> (length a < idx + length zs)%nat ->
  exists s', reap fuel a (Z.of_nat idx) s = Undefined s' /\
             events s' = events s.
Proof.
  induction zs as [|z zs IH]; intros fuel a idx s Hz Hfuel Hidx Hover;
    [simpl in Hover; lia|].
  destruct fuel as [|fuel]; [simpl in Hfuel; lia|].
  cbn [reap]. unfold bind at 1. unfold waitpid_nohang. rewrite Hz.
  change (0 <? Z.pos z) with true. cbv iota. unfold bind at 1, store.
  destruct (decide (idx < length a)%nat) as [Hin|Hout].
  - rewrite bool_decide_eq_true_2 by lia. unfold ret at 1. rewrite Nat2Z.id.
    replace (Z.of_nat idx + 1) with (Z.of_nat (S idx)) by lia.
    destruct (IH fuel (<[idx:=Z.pos z]> a) (S idx)
                (Sched (events s) (alarm_in s) (log s) zs (children s) (agents s)
                       (waits s ++ [WaitCall (-1) WNOHANG (Z.pos z)]) (reg s)))
      as (s' & Hrun & Hev); [reflexivity| | |  |].
    + simpl in Hfuel. lia.
    + rewrite length_insert. lia.
    + rewrite length_insert. simpl in Hover. lia.
    + exists s'. by rewrite Hrun.
  - rewrite bool_decide_eq_false_2 by lia. eexists. split; reflexivity.
Qed.

(** X12.  With more than [num_agents() + 1] dead children the handler
    stores a pid outside the array it allocated; it signals no event
    before that. *)
Theorem chld_sig_overflows_past_capacity s :
  0 <= agents s -> agents s + 1 < Z.of_nat (length (zombies s)) ->
  exists s', chld_sig SIGCHLD s = Undefined s' /\ events s' = events s.
Proof.
  intros Hagents Hover. unfold chld_sig, bind at 1, num_agents.
  unfold bind at 1, get. unfold bind.
  destruct (reap_overflow (zombies s) (S (length (zombies s)))
              (g_new0 (agents s + 1)) 0%nat s)
    as (s' & Hrun & Hev); [reflexivity|lia|lia| |].
  - unfold g_new0. rewrite length_replicate. lia.
  - change (Z.of_nat 0) with 0 in Hrun. rewrite Hrun. by exists s'.
Qed.

End SignalMore.

(** ** Part XXII.  More on the configuration: what a load leaves in the
    registries *)

Section ConfigMore.

Import Config.

(** What the turn of the loop for a readable HOSTS value [v] does, the
    locals being [b]: the locals it leaves, and the address and the
    directory it registers.  [None]: the turn reads a buffer that was
    never written, or writes past one. *)
Definition host_turn (agent_dir : string) (b : locals) (v : scanned)
  : option (locals * string * string) :=
  match sscanf v b with
  | None => None
  | Some b1 =>
      match addbuf b1 with
      | None => None
      | Some a =>
          match (if String.eqb a "localhost" then strcpy_dirbuf agent_dir b1
                 else Some b1) with
          | None => None
          | Some b2 =>
              match dirbuf b2 with
              | None => None
              | Some d => Some (b2, a, d)
              end
          end
      end
  end.

(** The hosts the loop registers, from locals [b] on. *)
Fixpoint hosts_from (agent_dir : string) (b : locals)
    (kvs : list (string * option scanned)) : option (list host_entry) :=
  match kvs with
  | [] => Some []
  | (_, None) :: kvs' => hosts_from agent_dir b kvs'
  | (k, Some v) :: kvs' =>
      match host_turn agent_dir b v with
      | None => None
      | Some (b2, a, d) =>
          match hosts_from agent_dir b2 kvs' with
          | None => None
          | Some hl => Some (HostEntry k a d (max b2) :: hl)
          end
      end
  end.

(** A HOSTS line as it is meant to be: a value that cannot be read, or
    one with its three fields, each fitting its buffer. *)
Definition complete (agent_dir : string) (kv : string * option scanned) : bool :=
  match snd kv with
  | None => true
  | Some (Scan3 a d _) =>
      fits a && fits d && (negb (String.eqb a "localhost") || fits agent_dir)
  | Some _ => false
  end.

(** The host a complete HOSTS line registers: none when its value
    cannot be read; the directory of "localhost" is AGENT_DIR. *)
Definition host_of_line (agent_dir : string)
    (kv : string * option scanned) : option host_entry :=
  match snd kv with
  | Some (Scan3 a d m) =>
      Some (HostEntry (fst kv) a
              (if String.eqb a "localhost" then agent_dir else d) m)
  | _ => None
  end.

Definition hosts_of (agent_dir : string)
    (kvs : list (string * option scanned)) : list host_entry :=
  omap (host_of_line agent_dir) kvs.

(** The locals a run of complete lines leaves, from [b] on. *)
Definition locals_after (agent_dir : string) (b : locals)
    (kvs : list (string * option scanned)) : locals :=
  fold_left (fun b kv =>
               match snd kv with
               | Some (Scan3 a d m) =>
                   Locals (Some a)
                     (Some (if String.eqb a "localhost" then agent_dir else d)) m
               | _ => b
               end) kvs b.

(** The meta-agent a configuration file asks to register: none for a
    file that is missing or unreadable, a file without the default group
    or without one of its keys. *)
Definition meta_of_file (c : conf_file) : option meta_entry :=
  match c with
  | Parsed c =>
      if has_default c
      then match special_list c, conf_name c, conf_command c, conf_max c with
           | Some l, Some name, Some cmd, Some tmp =>
               Some (MetaEntry name cmd (atoi_string tmp) (special_of l))
           | _, _, _, _ => None
           end
      else None
  | _ => None
  end.

(** The meta-agent an entry of mods-enabled asks to register: none for
    a name starting with a dot. *)
Definition meta_of_entry (ep : dir_entry) : option meta_entry :=
  match d_name ep with
  | String "."%char _ => None
  | _ => meta_of_file (d_conf ep)
  end.

(** The path of the entry's configuration file fits [addbuf], or the
    entry is skipped before the path is written. *)
Definition entry_fits (r : registry) (ep : dir_entry) : bool :=
  match d_name ep with
  | String "."%char _ => true
  | _ => fits (conf_path r (d_name ep))
  end.

(** The registry after [add_meta_agent] was asked to add [m]. *)
Definition enrol (ml : list meta_entry) (m : meta_entry) : list meta_entry :=
  if String.eqb (m_name m) "" || String.eqb (m_command m) ""
     || existsb (fun m' => String.eqb (m_name m') (m_name m)) ml
  then ml else ml ++ [m].

Definition metas_from (ml : list meta_entry) (l : list dir_entry) : list meta_entry :=
  fold_left (fun ml ep =>
               match meta_of_entry ep with
               | Some m => enrol ml m
               | None => ml
               end) l ml.

Lemma with_lists_same r :
  with_lists (s_port r) (port r) (host_list r) (meta_list r) (tested r) r = r.
Proof. by destruct r. Qed.

Lemma load_host_run b k v r :
  load_host b (k, Some v) r
  = match host_turn (AGENT_DIR r) b v with
    | Some (b2, a, d) =>
        Ret b2 (with_lists (s_port r) (port r)
                  (host_list r ++ [HostEntry k a d (max b2)]) (meta_list r)
                  (tested r) r)
    | None => Undefined r
    end.
Proof.
  unfold load_host, host_turn. cbn [snd fst]. unfold bind at 1.
  destruct (sscanf v b) as [b1|]; [|reflexivity]. cbn [written]. unfold ret at 1.
  unfold bind at 1. destruct (addbuf b1) as [a|] eqn:Hadd; [|reflexivity].
  cbn [string_in]. unfold ret at 1. unfold bind at 1, get. unfold bind at 1.
  destruct (String.eqb a "localhost").
  - unfold strcpy_dirbuf. destruct (fits (AGENT_DIR r)); [|reflexivity].
    cbn [written addbuf dirbuf max]. unfold ret at 1. rewrite Hadd.
    reflexivity.
  - unfold ret at 1. rewrite Hadd. cbn [string_in]. unfold bind at 1, ret at 1.
    unfold bind at 1. destruct (dirbuf b1); reflexivity.
Qed.

Lemma for_each_load_host l : forall b r,
  match hosts_from (AGENT_DIR r) b l with
  | Some hl =>
      exists b',
        for_each_from load_host l b r
        = Ret b' (with_lists (s_port r) (port r) (host_list r ++ hl)
                    (meta_list r) (tested r) r)
  | None => exists r', for_each_from load_host l b r = Undefined r'
  end.
Proof.
  induction l as [|[k [v|]] l IH]; intros b r.
  - exists b. simpl. unfold ret. by rewrite app_nil_r, with_lists_same.
  - cbn [for_each_from hosts_from]. unfold bind. rewrite load_host_run.
    destruct (host_turn (AGENT_DIR r) b v) as [[[b2 a] d]|]; [|by exists r].
    set (r1 := with_lists _ _ _ _ _ r). specialize (IH b2 r1).
    change (AGENT_DIR r1) with (AGENT_DIR r) in IH.
    destruct (hosts_from (AGENT_DIR r) b2 l) as [hl|].
    + destruct IH as [b' ->]. exists b'. subst r1.
      cbn [with_lists s_port port host_list meta_list tested foss mods_enabled
           DEFAULT_SETUP AGENT_CONF AGENT_DIR].
      by rewrite <- app_assoc.
    + exact IH.
  - cbn [for_each_from hosts_from]. unfold bind, load_host. cbn [snd].
    unfold ret at 1 2. apply IH.
Qed.

(** The port [load_foss_config] settles on: the one of the command
    line, or else the one of the file; none when neither is there. *)
Definition port_read (r : registry) : option Z :=
  if s_port r <? 0 then atoi_string <$> conf_port (foss r) else Some (s_port r).

Lemma load_foss_config_unfold r :
  default_error (foss r) = false ->
  load_foss_config r
  = match port_read r with
    | Some p =>
        match for_each_from load_host (conf_hosts (foss r)) fresh
                (with_lists p p [] (meta_list r) (tested r) r) with
        | Ret _ r' => Ret tt r'
        | Exit code r' => Exit code r'
        | Undefined r' => Undefined r'
        end
    | None =>
        Undefined (with_lists (s_port r) (port r) [] (meta_list r) (tested r) r)
    end.
Proof.
  intros Hload. unfold load_foss_config, bind at 1, host_list_clean, modify.
  unfold bind at 1, get. cbn [foss with_lists]. rewrite Hload.
  unfold bind at 1, when, ret at 1. unfold bind at 1. cbn [s_port with_lists].
  unfold port_read.
  destruct (s_port r <? 0) eqn:Hport.
  - unfold bind at 1. cbn [foss with_lists].
    destruct (conf_port (foss r)) as [tmp|] eqn:Hkey;
      cbn [fmap option_fmap option_map string_in]; [|reflexivity].
    unfold ret at 1, modify. unfold bind at 1, get. unfold bind at 1, set_port, modify.
    cbn [s_port port host_list meta_list tested with_lists foss].
    unfold bind, ret.
    by destruct (for_each_from _ _ _ _).
  - unfold ret at 1. unfold bind at 1, get. unfold bind at 1, set_port, modify.
    cbn [s_port port host_list meta_list tested with_lists foss].
    unfold bind, ret.
    by destruct (for_each_from _ _ _ _).
Qed.

Lemma load_foss_config_run r :
  default_error (foss r) = false ->
  match port_read r, hosts_from (AGENT_DIR r) fresh (conf_hosts (foss r)) with
  | Some p, Some hl =>
      load_foss_config r
      = Ret tt (with_lists p p hl (meta_list r) (tested r) r)
  | _, _ => exists r', load_foss_config r = Undefined r'
  end.
Proof.
  intros Hload. rewrite (load_foss_config_unfold r Hload).
  destruct (port_read r) as [p|]; [|by eexists].
  set (r1 := with_lists p p [] (meta_list r) (tested r) r).
  pose proof (for_each_load_host (conf_hosts (foss r)) fresh r1) as Hloop.
  change (AGENT_DIR r1) with (AGENT_DIR r) in Hloop.
  destruct (hosts_from (AGENT_DIR r) fresh (conf_hosts (foss r))) as [hl|].
  - destruct Hloop as [b' ->]. reflexivity.
  - destruct Hloop as [r' ->]. by eexists.
Qed.

Lemma load_agent_file_run c r :
  load_agent_file c r
  = Ret tt (with_lists (s_port r) (port r) (host_list r)
              (match meta_of_file c with
               | Some m => enrol (meta_list r) m
               | None => meta_list r
               end) (tested r) r).
Proof.
  unfold load_agent_file, meta_of_file.
  assert (Hsame : ret tt r = Ret tt (with_lists (s_port r) (port r) (host_list r)
                                       (meta_list r) (tested r) r))
    by (by rewrite with_lists_same).
  destruct c as [| |c]; try exact Hsame.
  destruct (has_default c); [|exact Hsame].
  destruct (special_list c), (conf_name c), (conf_command c), (conf_max c);
    try exact Hsame.
  unfold bind, add_meta_agent, enrol. cbn [m_name m_command negb].
  cbv beta iota. destruct (_ || _); [exact Hsame|reflexivity].
Qed.

Lemma load_agent_entry_run ep r :
  load_agent_entry ep r
  = if entry_fits r ep
    then Ret tt (with_lists (s_port r) (port r) (host_list r)
                   (match meta_of_entry ep with
                    | Some m => enrol (meta_list r) m
                    | None => meta_list r
                    end) (tested r) r)
    else Undefined r.
Proof.
  unfold load_agent_entry, meta_of_entry, entry_fits.
  assert (Hsame : ret tt r = Ret tt (with_lists (s_port r) (port r) (host_list r)
                                       (meta_list r) (tested r) r))
    by (by rewrite with_lists_same).
  assert (Hrest : forall name,
            (r0 <- get ;;
             if fits (conf_path r0 name) then load_agent_file (d_conf ep)
             else undefined)%run r
            = if fits (conf_path r name)
              then Ret tt (with_lists (s_port r) (port r) (host_list r)
                             (match meta_of_file (d_conf ep) with
                              | Some m => enrol (meta_list r) m
                              | None => meta_list r
                              end) (tested r) r)
              else Undefined r).
  { intros name. unfold bind, get.
    destruct (fits (conf_path r name)); [apply load_agent_file_run|reflexivity]. }
  destruct (d_name ep) as [|ch name] eqn:Hname;
    [| destruct (Ascii.eqb_spec ch "."%char) as [->|Hch]].
  - apply Hrest.
  - exact Hsame.
  - assert (Hnot : forall (A : Type) (x y : A),
              match ch with "."%char => x | _ => y end = y).
    { intros A x y. destruct ch as [[] [] [] [] [] [] [] []]; try reflexivity.
      by destruct Hch. }
    rewrite !Hnot. apply Hrest.
Qed.

Lemma entry_fits_with_lists sp p hl ml t r ep :
  entry_fits (with_lists sp p hl ml t r) ep = entry_fits r ep.
Proof. reflexivity. Qed.

Lemma for_each_load_agent_entry l : forall r,
  if forallb (entry_fits r) l
  then for_each load_agent_entry l r
       = Ret tt (with_lists (s_port r) (port r) (host_list r)
                   (metas_from (meta_list r) l) (tested r) r)
  else exists r', for_each load_agent_entry l r = Undefined r'.
Proof.
  induction l as [|ep l IH]; intros r.
  - simpl. unfold ret. by rewrite with_lists_same.
  - cbn [for_each forallb]. unfold bind. rewrite load_agent_entry_run.
    destruct (entry_fits r ep) eqn:Hfit; cbn [andb]; [|by exists r].
    set (r1 := with_lists _ _ _ _ _ r). specialize (IH r1).
    assert (Hsame : forallb (entry_fits r1) l = forallb (entry_fits r) l)
      by reflexivity.
    rewrite Hsame in IH. destruct (forallb (entry_fits r) l); [|exact IH].
    rewrite IH. reflexivity.
Qed.

Lemma load_agent_config_unfold r l :
  mods_enabled r = Some l ->
  load_agent_config r
  = match for_each load_agent_entry l
            (with_lists (s_port r) (port r) (host_list r) [] (tested r) r) with
    | Ret _ r' => for_each_host_test_agents r'
    | Exit code r' => Exit code r'
    | Undefined r' => Undefined r'
    end.
Proof.
  intros Hdir. unfold load_agent_config, bind at 1, agent_list_clean, modify.
  unfold bind at 1, get. cbn [mods_enabled with_lists]. by rewrite Hdir.
Qed.

Lemma load_agent_config_run r l :
  mods_enabled r = Some l ->
  if forallb (entry_fits r) l
  then load_agent_config r
       = Ret tt (with_lists (s_port r) (port r) (host_list r) (metas_from [] l)
                   (tested r ++ map h_name (host_list r)) r)
  else exists r', load_agent_config r = Undefined r'.
Proof.
  intros Hdir. rewrite (load_agent_config_unfold r l Hdir).
  set (r1 := with_lists _ _ _ _ _ r).
  pose proof (for_each_load_agent_entry l r1) as Hloop.
  assert (Hsame : forallb (entry_fits r1) l = forallb (entry_fits r) l)
    by reflexivity.
  rewrite Hsame in Hloop. destruct (forallb (entry_fits r) l).
  - rewrite Hloop. reflexivity.
  - destruct Hloop as [r' ->]. by exists r'.
Qed.

Lemma hosts_from_complete agent_dir l : forall b,
  forallb (complete agent_dir) l = true ->
  hosts_from agent_dir b l = Some (hosts_of agent_dir l).
Proof.
  induction l as [|[k [v|]] l IH]; intros b Hall; [reflexivity| |].
  - cbn [forallb] in Hall. apply andb_true_iff in Hall as [Hkv Hall].
    unfold complete in Hkv. cbn [snd] in Hkv.
    destruct v as [|a|a d|a d m]; try discriminate.
    apply andb_true_iff in Hkv as [Hkv Hdir].
    apply andb_true_iff in Hkv as [Ha Hd].
    cbn [hosts_from]. unfold host_turn, sscanf. rewrite Ha, Hd. cbn [andb addbuf].
    change (hosts_of agent_dir ((k, Some (Scan3 a d m)) :: l))
      with (HostEntry k a (if String.eqb a "localhost" then agent_dir else d) m
              :: hosts_of agent_dir l).
    destruct (String.eqb a "localhost").
    + cbn [negb orb] in Hdir. unfold strcpy_dirbuf. rewrite Hdir.
      cbn [dirbuf max addbuf]. rewrite IH by assumption. reflexivity.
    + cbn [dirbuf max]. rewrite IH by assumption. reflexivity.
  - cbn [forallb] in Hall. apply andb_true_iff in Hall as [_ Hall].
    cbn [hosts_from]. rewrite IH by assumption. reflexivity.
Qed.

(** X13.  When the main configuration file loads, the port is given on
    the command line or by the file, and every HOSTS value that can be
    read has its three fields, each fitting its buffer,
    [load_foss_config] returns with the host registry rebuilt from the
    HOSTS section alone: the hosts registered before are gone, one host
    is registered for each key whose value can be read, in the order of
    the keys, and a host whose address is "localhost" gets AGENT_DIR as
    its directory whatever the file says.  The meta-agents are not
    touched.  The port of the command line, if one was given, wins over
    the one of the file, and is the port passed to [set_port]. *)
Theorem load_foss_config_rebuilds_the_hosts r tmp :
  default_error (foss r) = false ->
  (s_port r < 0 -> conf_port (foss r) = Some tmp) ->
  forallb (complete (AGENT_DIR r)) (conf_hosts (foss r)) = true ->
  exists r',
    load_foss_config r = Ret tt r' /\
    host_list r' = hosts_of (AGENT_DIR r) (conf_hosts (foss r)) /\
    h_name <$> host_list r'
    = (fst <$> List.filter (fun kv => bool_decide (snd kv <> None))
                 (conf_hosts (foss r))) /\
    Forall (fun h => h_address h = "localhost" -> h_dir h = AGENT_DIR r)
           (host_list r') /\
    meta_list r' = meta_list r /\
    port r' = s_port r' /\
    s_port r' = (if s_port r <? 0 then atoi_string tmp else s_port r).
Proof.
  intros Hload Hkey Hall.
  assert (Hport : port_read r
                  = Some (if s_port r <? 0 then atoi_string tmp else s_port r)).
  { unfold port_read. destruct (Z.ltb_spec (s_port r) 0); [|reflexivity].
    by rewrite Hkey. }
  pose proof (load_foss_config_run r Hload) as Hrun.
  rewrite Hport, (hosts_from_complete _ _ fresh Hall) in Hrun. rewrite Hrun.
  eexists. split; [reflexivity|]. cbn [host_list meta_list port s_port with_lists].
  split; [reflexivity|]. split; [|split; [|by repeat split]].
  - clear Hrun. unfold hosts_of, host_of_line.
    induction (conf_hosts (foss r)) as [|[k [[|a|a d|a d m]|]] l IH];
      cbn [forallb] in Hall; try discriminate; simpl; [reflexivity| |];
      apply andb_true_iff in Hall as [_ Hall]; [f_equal|]; by apply IH.
  - clear Hrun. unfold hosts_of, host_of_line.
    induction (conf_hosts (foss r)) as [|[k [[|a|a d|a d m]|]] l IH]; simpl;
      cbn [forallb] in Hall; try discriminate; [constructor| |];
      apply andb_true_iff in Hall as [_ Hall]; [|by apply IH].
    constructor; [|by apply IH]. simpl. intros ->. reflexivity.
Qed.

Lemma port_read_again r p sp hl ml t :
  port_read r = Some p ->
  port_read (with_lists p sp hl ml t r) = Some p.
Proof.
  unfold port_read. cbn [s_port foss with_lists]. intros Hport.
  destruct (Z.ltb_spec p 0) as [Hneg|]; [|reflexivity].
  destruct (Z.ltb_spec (s_port r) 0); [assumption|].
  assert (p = s_port r) by congruence. lia.
Qed.

(** A whole load that returns. *)
Lemma load_config_run r p hl l :
  default_error (foss r) = false ->
  port_read r = Some p ->
  hosts_from (AGENT_DIR r) fresh (conf_hosts (foss r)) = Some hl ->
  mods_enabled r = Some l ->
  forallb (entry_fits r) l = true ->
  load_config Events.NULL r
  = Ret tt (with_lists p p hl (metas_from [] l) (tested r ++ map h_name hl) r).
Proof.
  intros Hload Hport Hhosts Hdir Hfit. unfold load_config, bind.
  pose proof (load_foss_config_run r Hload) as Hrun.
  rewrite Hport, Hhosts in Hrun. rewrite Hrun.
  set (ra := with_lists p p hl (meta_list r) (tested r) r).
  pose proof (load_agent_config_run ra l Hdir) as Hagents.
  change (forallb (entry_fits ra) l) with (forallb (entry_fits r) l) in Hagents.
  rewrite Hfit in Hagents. rewrite Hagents. reflexivity.
Qed.

(** What a load that returns has found. *)
Lemma load_config_returned r r1 :
  load_config Events.NULL r = Ret tt r1 ->
  exists p hl l,
    default_error (foss r) = false /\ port_read r = Some p /\
    hosts_from (AGENT_DIR r) fresh (conf_hosts (foss r)) = Some hl /\
    mods_enabled r = Some l /\ forallb (entry_fits r) l = true.
Proof.
  unfold load_config, bind.
  destruct (default_error (foss r)) eqn:Hload.
  { unfold load_foss_config, bind at 1, host_list_clean, modify.
    unfold bind at 1, get. cbn [foss with_lists]. rewrite Hload.
    unfold bind at 1, when, FATAL, exit. discriminate. }
  pose proof (load_foss_config_run r Hload) as Hrun.
  destruct (port_read r) as [p|] eqn:Hport;
    [|destruct Hrun as [r' ->]; discriminate].
  destruct (hosts_from (AGENT_DIR r) fresh (conf_hosts (foss r))) as [hl|] eqn:Hhosts;
    [|destruct Hrun as [r' ->]; discriminate].
  rewrite Hrun. clear Hrun.
  destruct (mods_enabled r) as [l|] eqn:Hdir.
  - set (ra := with_lists p p hl (meta_list r) (tested r) r).
    pose proof (load_agent_config_run ra l Hdir) as Hagents.
    change (forallb (entry_fits ra) l) with (forallb (entry_fits r) l) in Hagents.
    destruct (forallb (entry_fits r) l) eqn:Hfit;
      [|destruct Hagents as [r' ->]; discriminate].
    intros _. by exists p, hl, l.
  - unfold load_agent_config, bind at 1, agent_list_clean, modify.
    unfold bind at 1, get. cbn [mods_enabled with_lists]. rewrite Hdir.
    unfold FATAL, exit. discriminate.
Qed.

(** X14.  Loading the configuration twice is the same as loading it
    once: when [load_config] has returned, a second [load_config] on
    the unchanged files returns too and leaves the same hosts, the same
    meta-agents and the same port. *)
Theorem load_config_twice_is_once r r1 :
  load_config Events.NULL r = Ret tt r1 ->
  exists r2,
    load_config Events.NULL r1 = Ret tt r2 /\
    host_list r2 = host_list r1 /\ meta_list r2 = meta_list r1 /\
    s_port r2 = s_port r1 /\ port r2 = port r1.
Proof.
  intros Hfirst.
  destruct (load_config_returned r r1 Hfirst)
    as (p & hl & l & Hload & Hport & Hhosts & Hdir & Hfit).
  rewrite (load_config_run r p hl l) in Hfirst by assumption.
  injection Hfirst as <-.
  rewrite (load_config_run _ p hl l);
    [|exact Hload|by apply port_read_again|exact Hhosts|exact Hdir|exact Hfit].
  eexists. split; [reflexivity|]. by repeat split.
Qed.

Lemma hosts_from_app agent_dir l1 l2 : forall b,
  forallb (complete agent_dir) l1 = true ->
  hosts_from agent_dir b (l1 ++ l2)
  = match hosts_from agent_dir (locals_after agent_dir b l1) l2 with
    | Some hl => Some (hosts_of agent_dir l1 ++ hl)
    | None => None
    end.
Proof.
  induction l1 as [|[k [v|]] l1 IH]; intros b Hall.
  - simpl. by destruct (hosts_from agent_dir b l2).
  - cbn [forallb] in Hall. apply andb_true_iff in Hall as [Hkv Hall].
    unfold complete in Hkv. cbn [snd] in Hkv.
    destruct v as [|a|a d|a d m]; try discriminate.
    apply andb_true_iff in Hkv as [Hkv Hdir].
    apply andb_true_iff in Hkv as [Ha Hd].
    cbn [app hosts_from]. unfold host_turn, sscanf. rewrite Ha, Hd.
    cbn [andb addbuf].
    change (hosts_of agent_dir ((k, Some (Scan3 a d m)) :: l1))
      with (HostEntry k a (if String.eqb a "localhost" then agent_dir else d) m
              :: hosts_of agent_dir l1).
    change (locals_after agent_dir b ((k, Some (Scan3 a d m)) :: l1))
      with (locals_after agent_dir
              (Locals (Some a)
                 (Some (if String.eqb a "localhost" then agent_dir else d)) m) l1).
    destruct (String.eqb a "localhost").
    + cbn [negb orb] in Hdir. unfold strcpy_dirbuf. rewrite Hdir.
      cbn [dirbuf max addbuf]. rewrite IH by assumption.
      by destruct (hosts_from agent_dir _ l2).
    + cbn [dirbuf max]. rewrite IH by assumption.
      by destruct (hosts_from agent_dir _ l2).
  - cbn [forallb] in Hall. apply andb_true_iff in Hall as [_ Hall].
    cbn [app hosts_from]. rewrite IH by assumption. reflexivity.
Qed.

Lemma locals_after_last agent_dir b l k a d m :
  locals_after agent_dir b (l ++ [(k, Some (Scan3 a d m))])
  = Locals (Some a) (Some (if String.eqb a "localhost" then agent_dir else d)) m.
Proof. unfold locals_after. by rewrite fold_left_app. Qed.

(** X20.  A HOSTS value with nothing after the address is registered
    with what the line before it left in the buffers.  When the lines
    before it are complete, the line with address [a] alone registers a
    host with the directory of the host before it (AGENT_DIR, when that
    one or [a] is "localhost") and with the count of the host before
    it. *)
Theorem short_host_value_keeps_the_previous_fields r p pre k0 a0 d0 m0 k a :
  default_error (foss r) = false ->
  port_read r = Some p ->
  conf_hosts (foss r) = pre ++ [(k0, Some (Scan3 a0 d0 m0)); (k, Some (Scan1 a))] ->
  forallb (complete (AGENT_DIR r)) (pre ++ [(k0, Some (Scan3 a0 d0 m0))]) = true ->
  fits a = true -> fits (AGENT_DIR r) = true ->
  exists r',
    load_foss_config r = Ret tt r' /\
    host_list r'
    = hosts_of (AGENT_DIR r) (pre ++ [(k0, Some (Scan3 a0 d0 m0))])
      ++ [HostEntry k a
            (if String.eqb a "localhost" then AGENT_DIR r
             else if String.eqb a0 "localhost" then AGENT_DIR r else d0)
            m0].
Proof.
  intros Hload Hport Hhosts Hall Ha Hdir.
  pose proof (load_foss_config_run r Hload) as Hrun.
  rewrite Hport, Hhosts in Hrun.
  change (pre ++ [(k0, Some (Scan3 a0 d0 m0)); (k, Some (Scan1 a))])
    with (pre ++ [(k0, Some (Scan3 a0 d0 m0))] ++ [(k, Some (Scan1 a))]) in Hrun.
  rewrite app_assoc, (hosts_from_app _ _ _ fresh Hall), locals_after_last in Hrun.
  cbn [hosts_from] in Hrun. unfold host_turn, sscanf in Hrun.
  rewrite Ha in Hrun. cbn [addbuf dirbuf max] in Hrun.
  destruct (String.eqb a "localhost").
  - unfold strcpy_dirbuf in Hrun. rewrite Hdir in Hrun.
    cbn [addbuf dirbuf max] in Hrun. rewrite Hrun. by eexists.
  - cbn [addbuf dirbuf max] in Hrun. rewrite Hrun. by eexists.
Qed.

(** A value that leaves [dirbuf] as it was and does not name
    "localhost". *)
Definition lacks_directory (v : scanned) : bool :=
  match v with
  | Scan0 => true
  | Scan1 a => negb (String.eqb a "localhost")
  | Scan2 _ _ | Scan3 _ _ _ => false
  end.

Lemma hosts_from_skipped agent_dir b l1 l2 :
  forallb (fun kv => bool_decide (snd kv = None)) l1 = true ->
  hosts_from agent_dir b (l1 ++ l2) = hosts_from agent_dir b l2.
Proof.
  induction l1 as [|[k [v|]] l1 IH]; intros Hall; [reflexivity|discriminate|].
  cbn [forallb] in Hall. apply andb_true_iff in Hall as [_ Hall].
  cbn [app hosts_from]. by apply IH.
Qed.

(** X21.  When the first HOSTS value that can be read has no directory
    field, and its address is not "localhost", [load_foss_config] reads
    a buffer nothing was written to: [addbuf] when the value is empty,
    [dirbuf] otherwise. *)
Theorem first_host_value_without_directory_is_undefined r p skipped k v rest :
  default_error (foss r) = false ->
  port_read r = Some p ->
  conf_hosts (foss r) = skipped ++ (k, Some v) :: rest ->
  forallb (fun kv => bool_decide (snd kv = None)) skipped = true ->
  lacks_directory v = true ->
  exists r', load_foss_config r = Undefined r'.
Proof.
  intros Hload Hport Hhosts Hskipped Hshort.
  pose proof (load_foss_config_run r Hload) as Hrun.
  rewrite Hport, Hhosts, (hosts_from_skipped _ _ _ _ Hskipped) in Hrun.
  cbn [hosts_from] in Hrun. unfold host_turn, sscanf in Hrun.
  destruct v as [|a|a d|a d m]; try discriminate; cbn [lacks_directory] in Hshort.
  - exact Hrun.
  - apply negb_true_iff in Hshort. destruct (fits a); [|exact Hrun].
    cbn [addbuf fresh] in Hrun. rewrite Hshort in Hrun. exact Hrun.
Qed.

(** X22.  Without a port on the command line and without a port key in
    the file, [load_foss_config] passes the NULL of [fo_config_get] to
    [atoi]; the hosts registered before have been removed by then, and
    none has been added. *)
Theorem missing_port_key_is_undefined r :
  default_error (foss r) = false ->
  s_port r < 0 -> conf_port (foss r) = None ->
  exists r', load_foss_config r = Undefined r' /\ host_list r' = [] /\
             meta_list r' = meta_list r /\ s_port r' = s_port r.
Proof.
  intros Hload Hport Hkey. rewrite (load_foss_config_unfold r Hload).
  unfold port_read. destruct (Z.ltb_spec (s_port r) 0); [|lia].
  rewrite Hkey. by eexists.
Qed.

(** Whether a special list holds a readable "EXCLUSIVE". *)
Definition has_exclusive (l : list (option string)) : bool :=
  existsb (fun e => match e with
                    | Some cmd => String.eqb cmd "EXCLUSIVE"
                    | None => false
                    end) l.

Lemma special_fold l : forall acc,
  fold_left (fun special e =>
               match e with
               | Some cmd =>
                   if String.eqb cmd "EXCLUSIVE"
                   then Z.lor special SAG_EXCLUSIVE else special
               | None => special
               end) l acc
  = if has_exclusive l then Z.lor acc SAG_EXCLUSIVE else acc.
Proof.
  induction l as [|[cmd|] l IH]; intros acc; simpl; [reflexivity| |apply IH].
  destruct (String.eqb cmd "EXCLUSIVE"); simpl; rewrite IH; [|reflexivity].
  rewrite <- Z.lor_assoc, Z.lor_diag. by destruct (has_exclusive l).
Qed.

(** X15.  The [special] flags of an agent are SAG_EXCLUSIVE when its
    special list holds the word EXCLUSIVE, wherever and however often,
    and 0 otherwise; other words and elements that cannot be read do
    not count. *)
Theorem special_of_is_the_exclusive_flag l :
  special_of l = if has_exclusive l then SAG_EXCLUSIVE else 0.
Proof. unfold special_of. rewrite special_fold. by destruct (has_exclusive l). Qed.

End ConfigMore.

(** ** Part XXIII.  More on the start-up: the lock test, and where
    [main] can stop *)

Section StartupMore.

Import Events Startup.

(** The event loop was entered. *)
Definition entered (p : proc) : Prop := "event_loop_enter" ∈ calls p.

(** A step of the start-up that installs no handler, does not enter the
    event loop, and leaves the process, if at all, by [exit(-1)]. *)
Definition quiet {A} (m : run proc A) : Prop :=
  forall p,
    handlers (final (m p)) = handlers p /\
    (entered (final (m p)) -> entered p) /\
    (forall code p', m p = Exit code p' -> code = -1).

(** A run of [main] that, when it does not return, has installed no
    handler and has not entered the event loop. *)
Definition stops_quietly (m : run proc Z) : Prop :=
  forall p,
    match m p with
    | Ret v p' => v = 0
    | Exit code p' =>
        code = -1 /\ handlers p' = handlers p /\ (entered p' -> entered p)
    | Undefined p' => handlers p' = handlers p /\ (entered p' -> entered p)
    end.

Lemma quiet_ret {A} (a : A) : quiet (ret a).
Proof. intros p. split; [reflexivity|]. split; [auto|discriminate]. Qed.

Lemma quiet_get : quiet get.
Proof. intros p. split; [reflexivity|]. split; [auto|discriminate]. Qed.

Lemma quiet_bind {A B} (m : run proc A) (k : A -> run proc B) :
  quiet m -> (forall a, quiet (k a)) -> quiet (bind m k).
Proof.
  intros Hm Hk p. unfold bind. destruct (Hm p) as (Hh & He & Hc).
  destruct (m p) as [a p1|code p1|p1]; simpl in *.
  - destruct (Hk a p1) as (Hh' & He' & Hc').
    split; [congruence|]. split; [auto|]. exact Hc'.
  - repeat split; auto. intros code' p' [= <- <-]. eauto.
  - repeat split; auto. discriminate.
Qed.

Lemma quiet_when (c : bool) (m : run proc unit) : quiet m -> quiet (when c m).
Proof. intros Hm. destruct c; [exact Hm|apply quiet_ret]. Qed.

Lemma quiet_call name : name <> "event_loop_enter" -> quiet (call name).
Proof.
  intros Hname p. repeat split; [|discriminate]. unfold entered. simpl.
  intros [Hin|Hin]%elem_of_app; [assumption|].
  apply list_elem_of_singleton in Hin. congruence.
Qed.

Lemma quiet_FATAL {A} msg : quiet (@Config.FATAL proc A msg).
Proof.
  intros p. split; [reflexivity|]. split; [auto|].
  unfold Config.FATAL, exit. by intros code p' [= <- _].
Qed.

Lemma quiet_set_globals opts : quiet (set_globals opts).
Proof. intros p. split; [reflexivity|]. split; [auto|discriminate]. Qed.

(** A function run on a part of the process is quiet when its exits are
    all [exit(-1)]. *)
Lemma quiet_on {S A} (proj : proc -> S) (upd : S -> proc -> proc) (m : run S A) :
  (forall s p, handlers (upd s p) = handlers p /\ calls (upd s p) = calls p) ->
  (forall s code s', m s = Exit code s' -> code = -1) ->
  quiet (on proj upd m).
Proof.
  intros Hupd Hexit p. unfold on. specialize (Hexit (proj p)).
  destruct (m (proj p)) as [a s|code s|s]; simpl;
    destruct (Hupd s p) as [Hh Hc]; unfold entered; rewrite Hc;
    repeat split; auto; try discriminate.
  intros code' p' [= <- <-]. eauto.
Qed.

Lemma quiet_on_priv {A} (m : run Privilege.state A) :
  (forall s code s', m s = Exit code s' -> code = -1) -> quiet (on_priv m).
Proof. apply quiet_on. by intros s p. Qed.

Lemma quiet_on_os {A} (m : run Lock.os A) :
  (forall s code s', m s = Exit code s' -> code = -1) -> quiet (on_os m).
Proof. apply quiet_on. by intros s p. Qed.

Lemma quiet_on_reg {A} (m : run Config.registry A) :
  (forall s code s', m s = Exit code s' -> code = -1) -> quiet (on_reg m).
Proof.
  intros Hm. unfold on_reg, on_sched. apply quiet_on; [by intros s p|].
  intros s code s' Hrun. unfold on in Hrun.
  specialize (Hm (Signals.reg s)).
  destruct (m (Signals.reg s)); try discriminate. injection Hrun as <- _. eauto.
Qed.

Lemma stops_bind {A} (m : run proc A) (k : A -> run proc Z) :
  quiet m -> (forall a, stops_quietly (k a)) -> stops_quietly (bind m k).
Proof.
  intros Hm Hk p. unfold bind. destruct (Hm p) as (Hh & He & Hc).
  destruct (m p) as [a p1|code p1|p1]; simpl in *.
  - specialize (Hk a p1). destruct (k a p1); [assumption| |].
    + destruct Hk as (-> & Hh' & He'). repeat split; [congruence|auto].
    + destruct Hk as (Hh' & He'). split; [congruence|auto].
  - repeat split; eauto.
  - split; auto.
Qed.

Lemma stops_ret : stops_quietly (ret 0).
Proof. intros p. reflexivity. Qed.

(** The exits of the functions [main] calls. *)
Lemma set_usr_grp_exit_code s code s' :
  Privilege.set_usr_grp s = Exit code s' -> code = -1.
Proof.
  destruct s as [grp pwd msg mg meg mu meu cg cu gs gi egi ui eui ev err].
  destruct grp as [g|]; [|discriminate].
  destruct pwd as [u|], msg, mg, meg, mu, meu; lazy; intros Hrun;
    try discriminate Hrun; by injection Hrun as <- _.
Qed.

Lemma get_locked_pid_no_exit o code o' : Lock.get_locked_pid o <> Exit code o'.
Proof. rewrite get_locked_pid_run. cbv zeta. repeat case_match; discriminate. Qed.

Lemma lock_scheduler_no_exit o code o' : Lock.lock_scheduler o <> Exit code o'.
Proof.
  unfold Lock.lock_scheduler, bind. rewrite get_locked_pid_run.
  unfold Lock.shm_create, get, ret, undefined, Lock.write_buf. cbv zeta.
  repeat case_match; discriminate.
Qed.

Lemma kill_scheduler_no_exit o code o' : Lock.kill_scheduler o <> Exit code o'.
Proof. rewrite kill_scheduler_run. cbv zeta. repeat case_match; discriminate. Qed.

Lemma load_foss_config_exit_code r code r' :
  Config.load_foss_config r = Exit code r' -> code = -1.
Proof.
  destruct (Config.default_error (Config.foss r)) eqn:Hload.
  - unfold Config.load_foss_config, bind at 1, Config.host_list_clean, modify.
    unfold bind at 1, get. cbn [Config.foss Config.with_lists]. rewrite Hload.
    unfold bind at 1, when, Config.FATAL, exit. by intros [= <- _].
  - pose proof (load_foss_config_run r Hload) as Hrun.
    destruct (port_read r); [|destruct Hrun as [r0 ->]; discriminate].
    destruct (hosts_from _ _ _); [by rewrite Hrun|].
    destruct Hrun as [r0 ->]. discriminate.
Qed.

Lemma load_agent_config_exit_code r code r' :
  Config.load_agent_config r = Exit code r' -> code = -1.
Proof.
  destruct (Config.mods_enabled r) as [l|] eqn:Hdir.
  - pose proof (load_agent_config_run r l Hdir) as Hrun.
    destruct (forallb _ l); [by rewrite Hrun|].
    destruct Hrun as [r0 ->]. discriminate.
  - unfold Config.load_agent_config, bind at 1, Config.agent_list_clean, modify.
    unfold bind at 1, get. cbn [Config.mods_enabled Config.with_lists].
    rewrite Hdir. unfold Config.FATAL, exit. by intros [= <- _].
Qed.

Lemma quiet_lock_error : quiet lock_error.
Proof.
  unfold lock_error. apply quiet_bind.
  - apply quiet_on_os. intros s code s' H. by apply lock_scheduler_no_exit in H.
  - intros r. destruct (r <=? 0); [|apply quiet_ret].
    apply quiet_bind; [|intros; apply quiet_ret].
    apply quiet_on_os. intros s code s' H. by apply get_locked_pid_no_exit in H.
Qed.

(** X16.  [main] fails only before it has set anything up.  When [main]
    does not return (it exits, or runs into undefined behaviour), the
    exit code is -1, no signal handler has been installed and the event
    loop has not been entered.  When it returns, it returns -1 for a
    command line that does not parse and 0 otherwise. *)
Theorem main_fails_only_before_the_handlers opts p :
  match main opts p with
  | Ret v p' => v = (if parse_error opts then -1 else 0)
  | Exit code p' =>
      code = -1 /\ handlers p' = handlers p /\ (entered p' -> entered p)
  | Undefined p' => handlers p' = handlers p /\ (entered p' -> entered p)
  end.
Proof.
  destruct (parse_error opts) eqn:Hparse.
  { unfold main. rewrite Hparse. reflexivity. }
  assert (Hmain : stops_quietly (main opts)).
  { unfold main. rewrite Hparse.
    apply stops_bind; [apply quiet_set_globals|intros _].
    apply stops_bind; [apply quiet_on_priv, set_usr_grp_exit_code|intros _].
    apply stops_bind; [apply quiet_get|intros p0].
    apply stops_bind; [apply quiet_when, quiet_call; discriminate|intros _].
    destruct (opt_database opts).
    { apply stops_bind; [apply quiet_call; discriminate|intros _].
      apply stops_ret. }
    destruct (opt_kill opts).
    { apply stops_bind; [|intros _; apply stops_ret].
      apply quiet_on_os. intros s code s' H.
      by apply kill_scheduler_no_exit in H. }
    apply stops_bind; [apply quiet_when, quiet_call; discriminate|intros _].
    apply stops_bind; [apply quiet_lock_error|intros failed].
    apply stops_bind; [apply quiet_when, quiet_FATAL|intros _].
    do 6 (apply stops_bind; [apply quiet_call; discriminate|intros _]).
    apply stops_bind; [apply quiet_on_reg, load_foss_config_exit_code|intros _].
    do 2 (apply stops_bind; [apply quiet_call; discriminate|intros _]).
    apply stops_bind; [apply quiet_on_reg, load_agent_config_exit_code|intros _].
    intros q. destruct (opt_reset opts), (opt_test opts); reflexivity. }
  exact (Hmain p).
Qed.

(** One step of a run on the process: the fields of the record met. *)
Ltac proc_step :=
  cbv beta iota;
  cbn [os priv sched handlers calls closing verbose s_pid s_daemon].

(** The lock cannot be taken or is not read back: the object cannot be
    created or written, or the pid written is below 2, or
    [kill(pid, 0)] does not reach it. *)
Definition lock_refused (o : Lock.os) : bool :=
  Lock.create_fails o || Lock.write_fails o || (Lock.self o <? 2)
  || negb (bool_decide (Lock.self o ∈ Lock.live o)).

(** What the start-up has written into the object it created. *)
Definition lock_written (o : Lock.os) : list ascii :=
  if Lock.write_fails o then []
  else Lock.dec_digits 9 (Lock.self o) ++ [Lock.NUL].

(** X17.  The lock test of [main] when there is no lock object.  The
    test [lock_scheduler() <= 0 && !get_locked_pid()] is true exactly
    when the object cannot be created or written, or the pid written is
    below 2 or is not reached by [kill(pid, 0)].  When the object could
    not be created there is none afterwards.  When the test is true for
    another reason, the object the start-up created is removed again,
    unless [shm_unlink] fails: then it stays, holding what was written.
    When the test is false the object holds the pid of the process, as
    nine digits and a NUL.  Nothing else of the process changes. *)
Theorem lock_test_without_a_lock p :
  Lock.obj (os p) = Lock.Absent -> 0 <= Lock.self (os p) < 10 ^ 9 ->
  exists o',
    lock_error p
    = Ret (lock_refused (os p))
          (Proc (priv p) o' (sched p) (handlers p) (calls p) (closing p)
                (verbose p) (s_pid p) (s_daemon p)) /\
    Lock.obj o'
    = (if Lock.create_fails (os p) then Lock.Absent
       else if lock_refused (os p) && negb (Lock.unlink_fails (os p))
            then Lock.Absent
            else Lock.Holds (lock_written (os p))) /\
    Lock.live o' = Lock.live (os p) /\ Lock.sent o' = Lock.sent (os p).
Proof.
  destruct p as [pr o sc hs cs cl vb sp sd]. cbn [os priv sched handlers calls
    closing verbose s_pid s_daemon]. intros Hobj Hself.
  unfold lock_error, bind, on_os, on, lock_refused, lock_written. cbn [os].
  rewrite (lock_scheduler_run o Hobj), (sprintf_pid_in_range _ Hself).
  destruct (Lock.create_fails o) eqn:Hcreate.
  { cbn [orb]. change (-1 <=? 0) with true. proc_step.
    rewrite get_locked_pid_run. unfold Lock.shm. rewrite Hobj.
    eexists. split; [reflexivity|]. by repeat split. }
  destruct (Lock.write_fails o) eqn:Hwrite.
  { cbn [orb andb]. change (-1 <=? 0) with true. proc_step.
    rewrite (get_locked_pid_stale _ []); [|reflexivity|by left].
    eexists. split; [reflexivity|]. unfold unlinked.
    change (Lock.unlink_fails (Lock.set_shm _ o)) with (Lock.unlink_fails o).
    by destruct (Lock.unlink_fails o). }
  cbn [orb]. change (0 <=? 0) with true. proc_step.
  set (buf := Lock.dec_digits 9 (Lock.self o) ++ [Lock.NUL]).
  assert (Hpid : named_pid buf = Lock.self o) by by apply atoi_dec_digits.
  destruct (Z.ltb_spec (Lock.self o) 2) as [Hlow|Hhigh]; cbn [orb andb].
  { rewrite (get_locked_pid_stale _ buf); [|reflexivity|left; lia].
    eexists. split; [reflexivity|]. unfold unlinked.
    change (Lock.unlink_fails (Lock.set_shm _ o)) with (Lock.unlink_fails o).
    by destruct (Lock.unlink_fails o). }
  destruct (bool_decide (Lock.self o ∈ Lock.live o)) eqn:Hlive; cbn [negb andb].
  - apply bool_decide_eq_true_1 in Hlive.
    rewrite (get_locked_pid_owner _ buf); [|reflexivity|lia|by rewrite Hpid].
    rewrite Hpid. destruct (Z.eqb_spec (Lock.self o) 0); [lia|].
    eexists. split; [reflexivity|]. by repeat split.
  - apply bool_decide_eq_false_1 in Hlive.
    rewrite (get_locked_pid_stale _ buf); [|reflexivity|right; by rewrite Hpid].
    eexists. split; [reflexivity|]. unfold unlinked.
    change (Lock.unlink_fails (Lock.set_shm _ o)) with (Lock.unlink_fails o).
    by destruct (Lock.unlink_fails o).
Qed.


End StartupMore.

(** ** Part XXIV.  More on the scheduler as a transition system *)

Section SystemMore.

Import Policy Model System.

Lemma tick_keeps_closing {job host world : Type}
    (C : collaborators job host world) s w s' w' tr :
  update_scheduler C s w = Some (s', w', tr) -> closing s' = closing s.
Proof.
  unfold update_scheduler. generalize (S (backlog C w)) as fuel. intros fuel.
  unfold update_scheduler_fuel.
  destruct (closing s && _ && _); [by intros [= <- _ _]|].
  destruct (j s) as [e0|].
  - destruct (_ && _); by intros [= <- _ _].
  - destruct (if negb _ then _ else _) as [[[[e|] w1] tr1]|]; [| |discriminate].
    + destruct (_ && _); by intros [= <- _ _].
    + by intros [= <- _ _].
Qed.

(** X19.  [closing] is never cleared.  Once [scheduler_close_event] has
    set it, it stays set whatever follows: ticks, deaths of agents, new
    jobs, further close events. *)
Theorem closing_is_never_cleared c c' :
  reachable c c' -> closing (fst c) = true -> closing (fst c') = true.
Proof.
  unfold reachable. induction 1 as [c|c1 c2 c3 Hstep _ IH]; [done|].
  intros Hclosing. apply IH. destruct Hstep as [s w s' w' tr Hrun| | |];
    simpl in *; try done.
  by rewrite (tick_keeps_closing _ _ _ _ _ _ Hrun).
Qed.

End SystemMore.

(** ** Part XXV.  The properties above on the scenarios and machines *)

Section PolicyOnScenarios.

Import Policy Model System Scenario.

(** One agent runs job A; job C waits. *)
Definition busy : world :=
  World [localhost] [copyright; migrate] [job_C] []
        [Agent 2 "localhost" "copyright" job_A] [] 3 false.

(** X2, witness: the idle scheduler with A and the exclusive B queued;
    the tick launches both and sets [lockout]. *)
Lemma tick_flags_with_an_exclusive_job_queued :
  exists s' w' tr,
    update_scheduler spec_collaborators idle (queued [localhost] [job_A; job_B])
    = Some (s', w', tr) /\
    lockout s' = true /\
    closing s' = closing idle /\
    (lockout idle = true -> lockout s' = false ->
     drained spec_collaborators (queued [localhost] [job_A; job_B]) = true) /\
    (lockout idle = false -> lockout s' = true ->
     drained spec_collaborators (queued [localhost] [job_A; job_B]) = true /\
     j s' = None /\ exists pre h e, tr = pre ++ [Cagent_init h e 0]) /\
    ((lockout idle = true -> j idle = None) -> lockout s' = true -> j s' = None).
Proof.
  eexists _, _, _. split; [lazy; reflexivity|]. split; [reflexivity|].
  eapply (tick_changes_lockout_only_at_drain_and_launch spec_collaborators idle
            (queued [localhost] [job_A; job_B])).
  lazy. reflexivity.
Defined.

(** X3, witness: one agent live and C queued; the tick launches C with
    [closing] set as it does with [closing] clear. *)
Lemma closing_tick_on_a_busy_scheduler :
  drained spec_collaborators busy = false /\
  exists s' w' tr,
    update_scheduler spec_collaborators (Statics false None false) busy
    = Some (s', w', tr) /\
    update_scheduler spec_collaborators (Statics true None false) busy
    = Some (Statics true (j s') (lockout s'), w', tr).
Proof.
  split; [reflexivity|].
  apply (closing_tick_admits_jobs_until_drained spec_collaborators None false busy).
  reflexivity.
Defined.

(** X19, witness: closing with one agent live; a tick follows. *)
Lemma closing_survives_a_tick :
  exists c',
    step (scheduler_close_event (idle, busy)) c' /\ closing (fst c') = true.
Proof.
  eexists (_, _). split; [eapply step_tick; lazy; reflexivity|].
  apply (closing_is_never_cleared (scheduler_close_event (idle, busy)));
    [|reflexivity].
  apply rtc_once. eapply step_tick. lazy. reflexivity.
Defined.

End PolicyOnScenarios.

Section LockOnMachines.

Import Lock.





End LockOnMachines.

Section PrivilegeOnMachines.

Import Privilege.

(** Started by a user who may not change the group id. *)
Definition setgid_refused : state :=
  State (Some 999) (Some 999) true false true true true true true [0] 0 0 0 0
        [] [].

(** Started from a set-id binary of the project user by user 1000:
    the effective ids are the project's, the real ones the caller's. *)
Definition set_id_start : state :=
  State (Some 999) (Some 999) false true true true true false false [1000]
        1000 999 1000 999 [] [].

(** X8, witness: started by root. *)
Lemma root_becomes_the_project_user :
  exists s',
    set_usr_grp Machine.as_root = Ret tt s' /\
    exists g u,
      group_gid Machine.as_root = Some g /\ user_uid Machine.as_root = Some u /\
      egid s' = g /\ euid s' = u /\
      gid s' = (if cap_setgid Machine.as_root then g else gid Machine.as_root) /\
      uid s' = (if cap_setuid Machine.as_root then u else uid Machine.as_root) /\
      (groups s' = [g] \/
       may_setgroups Machine.as_root = false /\ groups s' = groups Machine.as_root) /\
      events s' = events Machine.as_root /\ stderr s' = stderr Machine.as_root.
Proof.
  eexists. split; [lazy; reflexivity|].
  apply (set_usr_grp_returns_with_project_ids Machine.as_root). lazy. reflexivity.
Defined.

(** From a set-id start [set_usr_grp] returns with the real ids of the
    caller. *)
Example set_id_start_keeps_the_real_ids :
  set_usr_grp set_id_start = Ret tt set_id_start /\
  gid set_id_start = 1000 /\ uid set_id_start = 1000.
Proof. repeat split. Qed.

(** X9, witness: [setgid] is refused. *)
Lemma refused_setgid_exits :
  exists s',
    set_usr_grp setgid_refused = Exit (-1) s' /\
    stderr s' <> stderr setgid_refused.
Proof.
  eexists. split; [lazy; reflexivity|].
  apply (set_usr_grp_exit_code_and_cause setgid_refused (-1)). lazy. reflexivity.
Defined.

End PrivilegeOnMachines.

Section SignalsOnMachines.

Import Events Signals.

(** Two children have died; [num_agents()] is 1. *)
Definition two_dead_one_counted : sched :=
  Sched [] None [] [41; 42]%positive true 1 [] Machine.on_disk.

(** X10, witness: SIGTERM at rest. *)
Lemma sigterm_enqueues_the_close_event :
  exists s',
    prnt_sig SIGTERM Machine.at_rest = Ret tt s' /\
    events s' = [(scheduler_close_event, NULL)] /\
    reg s' = reg Machine.at_rest.
Proof.
  destruct (prnt_sig_only_enqueues SIGTERM Machine.at_rest)
    as (s' & Hrun & Hev & _ & Hreg & _); [discriminate|].
  exists s'. by repeat split.
Defined.

(** X11, witness: two dead children, one agent counted. *)
Lemma two_dead_children_fill_the_batch :
  exists s',
    chld_sig SIGCHLD two_dead_one_counted = Ret tt s' /\
    events s' = events two_dead_one_counted
                ++ [(agent_death_event, Pids (Z.pos <$> zombies two_dead_one_counted))] /\
    zombies s' = [] /\
    Forall (fun pid => 0 < pid) (Z.pos <$> zombies two_dead_one_counted).
Proof. apply (chld_sig_full_batch_has_no_terminator two_dead_one_counted). reflexivity. Defined.

(** X12, witness: two dead children, no agent counted. *)
Lemma two_dead_children_overflow :
  exists s',
    chld_sig SIGCHLD Machine.two_dead_none_counted = Undefined s' /\
    events s' = events Machine.two_dead_none_counted.
Proof.
  apply (chld_sig_overflows_past_capacity Machine.two_dead_none_counted);
    simpl; lia.
Defined.

End SignalsOnMachines.

Section ConfigOnMachines.

Import Config.

(** X13, witness: the configuration of one host and port 24693. *)
Lemma on_disk_hosts_are_loaded :
  exists r',
    load_foss_config Machine.on_disk = Ret tt r' /\
    (h_name <$> host_list r') = ["localhost"] /\
    meta_list r' = [] /\
    s_port r' = 24693.
Proof.
  destruct (load_foss_config_rebuilds_the_hosts Machine.on_disk "24693"
              eq_refl (fun _ => eq_refl) eq_refl)
    as (r' & Hrun & _ & Hnames & _ & Hmeta & _ & Hport).
  exists r'. split; [exact Hrun|]. split; [exact Hnames|].
  split; [exact Hmeta|exact Hport].
Defined.

(** A HOSTS section whose second value has an address only. *)
Definition short_second_line : registry :=
  Registry
    (FossConf false (Some "24693")
       [("one", Some (Scan3 "10.0.0.1" "/srv/agents" 4));
        ("two", Some (Scan1 "10.0.0.2"))])
    (Some []) "/usr/local/etc/fossology" "mods-enabled"
    "/usr/lib/fossology/agents" (-1) 0 [] [] [].

(** A HOSTS section whose first value has an address only. *)
Definition short_first_line : registry :=
  Registry
    (FossConf false (Some "24693") [("one", Some (Scan1 "10.0.0.1"))])
    (Some []) "/usr/local/etc/fossology" "mods-enabled"
    "/usr/lib/fossology/agents" (-1) 0 [] [] [].

(** A file without a port key, and no port on the command line. *)
Definition no_port_key : registry :=
  Registry
    (FossConf false None [("localhost", Some (Scan3 "localhost" "agents" 4))])
    (Some []) "/usr/local/etc/fossology" "mods-enabled"
    "/usr/lib/fossology/agents" (-1) 0
    [HostEntry "old" "10.0.0.9" "/srv/agents" 2] [] [].

(** X20, witness: host "two" gets the directory and the count of host
    "one". *)
Lemma second_host_inherits_the_first :
  exists r',
    load_foss_config short_second_line = Ret tt r' /\
    host_list r'
    = [HostEntry "one" "10.0.0.1" "/srv/agents" 4;
       HostEntry "two" "10.0.0.2" "/srv/agents" 4].
Proof.
  apply (short_host_value_keeps_the_previous_fields short_second_line 24693
           [] "one" "10.0.0.1" "/srv/agents" 4 "two" "10.0.0.2");
    reflexivity.
Defined.

(** X21, witness: the only host has an address and nothing else. *)
Lemma lone_short_host_is_undefined :
  exists r', load_foss_config short_first_line = Undefined r'.
Proof.
  apply (first_host_value_without_directory_is_undefined short_first_line 24693
           [] "one" (Scan1 "10.0.0.1") []);
    reflexivity.
Defined.

(** X22, witness: no port anywhere. *)
Lemma no_port_anywhere_is_undefined :
  exists r',
    load_foss_config no_port_key = Undefined r' /\ host_list r' = [] /\
    meta_list r' = meta_list no_port_key /\ s_port r' = s_port no_port_key.
Proof.
  apply (missing_port_key_is_undefined no_port_key); [reflexivity| |reflexivity].
  simpl. lia.
Defined.

(** X14, witness: the same configuration loaded twice. *)
Lemma on_disk_loaded_twice :
  exists r1,
    load_config Events.NULL Machine.on_disk = Ret tt r1 /\
    exists r2,
      load_config Events.NULL r1 = Ret tt r2 /\
      host_list r2 = host_list r1 /\ meta_list r2 = meta_list r1 /\
      s_port r2 = s_port r1 /\ port r2 = port r1.
Proof.
  eexists. split; [lazy; reflexivity|].
  apply (load_config_twice_is_once Machine.on_disk). lazy. reflexivity.
Defined.

End ConfigOnMachines.

Section StartupOnMachines.

Import Startup.

(** The first scheduler to start: process 1234, no lock yet. *)
Definition first_instance : proc :=
  Proc Machine.as_root Machine.unlocked Machine.at_rest [] [] false 0 0 false.


(** X17, witness: process 1234 takes the lock and reads it back. *)
Lemma first_instance_passes_the_lock_test :
  exists o',
    lock_error first_instance
    = Ret false (Proc Machine.as_root o' Machine.at_rest [] [] false 0 0 false) /\
    Lock.obj o' = Lock.Holds (Lock.dec_digits 9 1234 ++ [Lock.NUL]) /\
    Lock.live o' = [1234] /\ Lock.sent o' = [].
Proof.
  apply (lock_test_without_a_lock first_instance); [reflexivity|].
  simpl. lia.
Defined.


End StartupOnMachines.
